(** * ble2mqtt: the kettle driver and the bridge's supervision loops

    A shallow embedding of [ble2mqtt/devices/kettle_xiaomi.py] (status
    record decoding, the RC4-style cipher, the state publishing loop) and
    of the three long-running loops of [ble2mqtt.py] (message dispatch,
    device supervision, broker connection), with the properties the
    specification states about them.

    Python integers are [Z]; [bytes] and [bytearray] contents are lists of
    [Z] whose elements lie in [0, 256); a [bytearray] that the code mutates
    in place lives in an explicit store and is passed by reference.
    Exceptions are values of [exn]; a computation that can raise returns a
    [result]. Python floats are the binary64 numbers of [PrimFloat], with
    the subtraction and the comparisons of IEEE 754. *)

From Stdlib Require Import ZArith Lia.
From Stdlib Require Import Floats.PrimFloat.
From Stdlib Require Numbers.Cyclic.Int63.Uint63.
From stdpp Require Import base option list gmap strings.

Local Open Scope Z_scope.

(** ** Exceptions and results *)

Inductive exn : Set :=
| StructError                  (* struct.error *)
| ValueError
| IndexError
| ZeroDivisionError
| KeyError
| NotImplementedError
| CancelledError               (* asyncio.CancelledError, a BaseException *)
| AccessRefusedError           (* aio_mqtt *)
| ConnectionLostError          (* aio_mqtt *)
| ConnectionCloseForcedError   (* aio_mqtt *)
| RuntimeError.                (* any other subclass of Exception *)

Inductive result (A : Type) : Type :=
| Ok (a : A)
| Raise (e : exn).
Arguments Ok {A} a.
Arguments Raise {A} e.

Definition rbind {A B} (r : result A) (k : A -> result B) : result B :=
  match r with
  | Ok a => k a
  | Raise e => Raise e
  end.

#[global] Instance result_ret : MRet result := @Ok.
#[global] Instance result_bind : MBind result := fun A B k r => rbind r k.

(** A byte string: every element is the value of one byte. *)
Definition is_byte (b : Z) : Prop := 0 <= b < 256.
Definition is_bytes (bs : list Z) : Prop := Forall is_byte bs.

(** ** [struct.unpack] for the format characters the driver uses *)

Module Struct.

(** Format characters; the leading ['<'] of a format string selects
    little-endian standard sizes without padding. *)
Inductive code : Set :=
| B    (* unsigned char, 1 byte *)
| H.   (* unsigned short, 2 bytes *)

Definition size (c : code) : nat :=
  match c with
  | B => 1
  | H => 2
  end.

Definition calcsize (fmt : list code) : nat :=
  foldr (fun c n => (size c + n)%nat) 0%nat fmt.

(** Field by field decoding of a buffer already known to be long
    enough; a short buffer yields [None]. *)
Fixpoint fields (fmt : list code) (buf : list Z) : option (list Z) :=
  match fmt, buf with
  | [], _ => Some []
  | B :: fmt', b0 :: buf' => cons b0 <$> fields fmt' buf'
  | H :: fmt', b0 :: b1 :: buf' => cons (b0 + 256 * b1) <$> fields fmt' buf'
  | _, _ => None
  end.

(** [struct.unpack(fmt, buf)]: the buffer's size must be exactly the
    size the format requires, otherwise [struct.error] is raised. *)
Definition unpack (fmt : list code) (buf : list Z) : result (list Z) :=
  if Nat.eqb (length buf) (calcsize fmt) then
    match fields fmt buf with
    | Some vs => Ok vs
    | None => Raise StructError
    end
  else Raise StructError.

End Struct.

(** ** The kettle's status record *)

Module Mode.
Inductive t : Set := IDLE | HEATING | COOLING | KEEP_WARM.
(** [Mode(v)]: lookup by value, [ValueError] when no member has it. *)
Definition of_value (v : Z) : result t :=
  if v =? 0 then Ok IDLE
  else if v =? 1 then Ok HEATING
  else if v =? 2 then Ok COOLING
  else if v =? 3 then Ok KEEP_WARM
  else Raise ValueError.
End Mode.

Module LEDMode.
Inductive t : Set := BOIL | KEEP_WARM | NONE.
Definition of_value (v : Z) : result t :=
  if v =? 1 then Ok BOIL
  else if v =? 2 then Ok KEEP_WARM
  else if v =? 255 then Ok NONE
  else Raise ValueError.
End LEDMode.

Module KeepWarmType.
Inductive t : Set := BOIL_AND_COOLDOWN | HEAT_TO_TEMP.
Definition of_value (v : Z) : result t :=
  if v =? 0 then Ok BOIL_AND_COOLDOWN
  else if v =? 1 then Ok HEAT_TO_TEMP
  else Raise ValueError.
End KeepWarmType.

Module MiKettleState.

Record t : Set := mk {
  mode : Mode.t;
  led_mode : LEDMode.t;
  temperature : Z;
  target_temperature : Z;
  keep_warm_type : KeepWarmType.t;
  keep_warm_time : Z;
}.

(** [FORMAT = '<BBHBBBHBBB'] *)
Definition FORMAT : list Struct.code :=
  [Struct.B; Struct.B; Struct.H; Struct.B; Struct.B; Struct.B; Struct.H;
   Struct.B; Struct.B; Struct.B].

(** [MiKettleState.from_bytes]. The tuple assignment has ten targets,
    one per format character; the three enum constructors are called in
    the order of the keyword arguments. *)
Definition from_bytes (response : list Z) : result t :=
  vs ← Struct.unpack FORMAT response;
   match vs with
   | [mode; led_mode; _; target_temp; current_temp;
      keep_warm_type; keep_warm_time; _; _; _] =>
       m ← Mode.of_value mode;
       l ← LEDMode.of_value led_mode;
       k ← KeepWarmType.of_value keep_warm_type;
       Ok {| mode := m;
             led_mode := l;
             temperature := current_temp;
             target_temperature := target_temp;
             keep_warm_type := k;
             keep_warm_time := keep_warm_time |}
   | _ => Raise ValueError
   end.

(** The record of the specification's example, 13 bytes. *)
Definition record13 : list Z := [1; 1; 0; 0; 100; 45; 0; 5; 0; 0; 0; 0; 0].
(** The same record without its last byte, 12 bytes. *)
Definition record12 : list Z := [1; 1; 0; 0; 100; 45; 0; 5; 0; 0; 0; 0].
(** Its first 11 bytes. *)
Definition record11 : list Z := [1; 1; 0; 0; 100; 45; 0; 5; 0; 0; 0].
(** The sample of the comment in [from_bytes]. *)
Definition sample : list Z := [0; 255; 0; 0; 90; 40; 0; 0; 0; 1; 24; 0].

Definition expected : t :=
  {| mode := Mode.HEATING;
     led_mode := LEDMode.BOIL;
     temperature := 45;
     target_temperature := 100;
     keep_warm_type := KeepWarmType.BOIL_AND_COOLDOWN;
     keep_warm_time := 5 |}.

End MiKettleState.

(** ** The store of mutable [bytearray] objects *)

Module Store.

(** A reference to a [bytearray] object. *)
Definition ref : Set := nat.

(** Computations that read and mutate the store and may raise. An
    exception leaves the mutations made so far in place. *)
Definition py (A : Type) : Type :=
  gmap ref (list Z) -> result A * gmap ref (list Z).

Definition ret {A} (a : A) : py A := fun σ => (Ok a, σ).

Definition bind {A B} (m : py A) (k : A -> py B) : py B :=
  fun σ =>
    match m σ with
    | (Ok a, σ') => k a σ'
    | (Raise e, σ') => (Raise e, σ')
    end.

(** Lift a computation that only raises or returns. *)
Definition lift {A} (r : result A) : py A := fun σ => (r, σ).

(** The contents of the object a reference points to. References are
    only ever produced by [bytearray_new], so the default is not used. *)
Definition contents (σ : gmap ref (list Z)) (r : ref) : list Z :=
  default [] (σ !! r).

End Store.

#[global] Instance py_ret : MRet Store.py := @Store.ret.
#[global] Instance py_bind : MBind Store.py := fun A B k m => Store.bind m k.

Module Py.
Import Store.

(** [len(x)] *)
Definition len (l : list Z) : Z := Z.of_nat (length l).

(** [range(a, b)] *)
Definition range (a b : Z) : list Z :=
  seqZ a (b - a).

(** Subscript of a sequence by an integer: a negative index counts from
    the end; out of range is [None] ([IndexError] at the call sites). *)
Definition index (l : list Z) (i : Z) : option Z :=
  let i' := if i <? 0 then i + len l else i in
  if (0 <=? i') && (i' <? len l) then l !! Z.to_nat i' else None.

(** The position a valid subscript denotes. *)
Definition position (l : list Z) (i : Z) : option nat :=
  let i' := if i <? 0 then i + len l else i in
  if (0 <=? i') && (i' <? len l) then Some (Z.to_nat i') else None.

Definition is_byteb (v : Z) : bool := (0 <=? v) && (v <? 256).

(** [x[i]] on a [bytes] value. *)
Definition bytes_getitem (x : list Z) (i : Z) : result Z :=
  match index x i with
  | Some v => Ok v
  | None => Raise IndexError
  end.

(** [output.extend(bytes(vs))] on a [bytearray] held as a value. *)
Definition bytes_extend (output vs : list Z) : result (list Z) :=
  if forallb is_byteb vs then Ok (output ++ vs) else Raise ValueError.

(** [a % b] on integers. *)
Definition mod_ (a b : Z) : result Z :=
  if b =? 0 then Raise ZeroDivisionError else Ok (a mod b).

(** [bytearray()] : a fresh, empty object. *)
Definition bytearray_new : py ref :=
  fun σ => let r := fresh (dom σ) in (Ok r, <[r := []]> σ).

(** [b.extend(bytes(vs))] : [bytes(...)] rejects a value that is not a
    byte with [ValueError]. *)
Definition extend (b : ref) (vs : list Z) : py unit :=
  fun σ =>
    if forallb is_byteb vs
    then (Ok tt, <[b := contents σ b ++ vs]> σ)
    else (Raise ValueError, σ).

(** [b[i]] on a [bytearray]. *)
Definition getitem (b : ref) (i : Z) : py Z :=
  fun σ =>
    match index (contents σ b) i with
    | Some v => (Ok v, σ)
    | None => (Raise IndexError, σ)
    end.

(** [b[i] = v] on a [bytearray]. *)
Definition setitem (b : ref) (i : Z) (v : Z) : py unit :=
  fun σ =>
    match position (contents σ b) i with
    | Some n =>
        if is_byteb v
        then (Ok tt, <[b := <[n := v]> (contents σ b)]> σ)
        else (Raise ValueError, σ)
    | None => (Raise IndexError, σ)
    end.

(** [for x in xs: s = body(x, s)] with the loop-carried variables [s]. *)
Fixpoint for_each {A S} (xs : list A) (body : A -> S -> py S) (s : S)
  : py S :=
  match xs with
  | [] => mret s
  | x :: xs' => (s' ← body x s; for_each xs' body s')
  end.

End Py.

(** ** The cipher of [XiaomiCipherMixin] *)

Module XiaomiCipherMixin.
Import Store Py.

(** [perm[i], perm[j] = perm[j], perm[i]] : the right-hand side is
    evaluated first, then the targets are assigned left to right. *)
Definition swap_items (perm : ref) (i j : Z) : py unit :=
  (a ← getitem perm j;
   b ← getitem perm i;
   setitem perm i a;;
   setitem perm j b).

Definition _cipher_init (key : list Z) : py ref :=
  (perm ← bytearray_new;
   for_each (range 0 256) (fun i _ => extend perm [Z.land i 255]) tt;;
   let keyLen := len key in
   let j := 0 in
   j ← for_each (range 0 256)
         (fun i j =>
            p ← getitem perm i;
            n ← lift (mod_ i keyLen);
            k ← lift (bytes_getitem key n);
            let j := j + (p + k) in
            let j := Z.land j 255 in
            swap_items perm i j;;
            mret j)
         j;
   mret perm).

(** The loop-carried variables of [_cipher_crypt]. *)
Record crypt_vars : Set := mk_vars {
  index1 : Z;
  index2 : Z;
  output : list Z;
}.

(** [output] is created inside the call and only returned, so no other
    reference to it exists: it is carried as a value. *)
Definition _cipher_crypt (input : list Z) (perm : ref) : py (list Z) :=
  s ← for_each (range 0 (len input))
        (fun i '(mk_vars index1 index2 output) =>
           let index1 := index1 + 1 in
           let index1 := Z.land index1 255 in
           p ← getitem perm index1;
           let index2 := index2 + p in
           let index2 := Z.land index2 255 in
           swap_items perm index1 index2;;
           a ← getitem perm index1;
           b ← getitem perm index2;
           let idx := a + b in
           let idx := Z.land idx 255 in
           x ← lift (bytes_getitem input i);
           y ← getitem perm idx;
           let output_byte := Z.lxor x y in
           extended ← lift (bytes_extend output [Z.land output_byte 255]);
           mret (mk_vars index1 index2 extended))
        (mk_vars 0 0 []);
  mret (output s).

Definition cipher (key input : list Z) : py (list Z) :=
  (perm ← _cipher_init key;
   _cipher_crypt input perm).

(** [AUTH_MAGIC2] *)
Definition AUTH_MAGIC2 : list Z := [146; 171; 84; 250].

(** [generate_random_token] *)
Definition generate_random_token : list Z :=
  [1; 92; 203; 168; 128; 10; 189; 193; 46; 184; 237; 130].

End XiaomiCipherMixin.

(** ** What the two loops of the cipher compute

    The bodies of the loops of [_cipher_init] and [_cipher_crypt] read as
    functions on the contents of the permutation table. The proofs relate
    the store level code above to them; the properties are stated on
    [XiaomiCipherMixin.cipher] itself. *)

Module RC4.

(** The table after exchanging the entries at positions [i] and [j]. *)
Definition swap (p : list Z) (i j : nat) : list Z :=
  <[j := p !!! i]> (<[i := p !!! j]> p).

Definition ksa_step (key : list Z) (jp : Z * list Z) (i : Z) : Z * list Z :=
  let j := Z.land (jp.1 + (jp.2 !!! Z.to_nat i
                           + key !!! Z.to_nat (i mod Py.len key))) 255 in
  (j, swap jp.2 (Z.to_nat i) (Z.to_nat j)).

Definition ksa (key : list Z) : list Z :=
  (foldl (ksa_step key) (0, Py.range 0 256) (Py.range 0 256)).2.

(** The state of the generator: the two indices and the table. *)
Record state : Set := mk_state { i1 : Z; i2 : Z; table : list Z }.

(** One round of the generator: the next state and the keystream byte. *)
Definition prga_step (s : state) : state * Z :=
  let a := Z.land (i1 s + 1) 255 in
  let b := Z.land (i2 s + table s !!! Z.to_nat a) 255 in
  let p := swap (table s) (Z.to_nat a) (Z.to_nat b) in
  let idx := Z.land (p !!! Z.to_nat a + p !!! Z.to_nat b) 255 in
  (mk_state a b p, p !!! Z.to_nat idx).

Fixpoint crypt (input : list Z) (s : state) : list Z * state :=
  match input with
  | [] => ([], s)
  | x :: input' =>
      let sk := prga_step s in
      let r := crypt input' sk.1 in
      (Z.land (Z.lxor x sk.2) 255 :: r.1, r.2)
  end.

(** A table of 256 bytes. *)
Definition wf (p : list Z) : Prop := length p = 256%nat /\ is_bytes p.

End RC4.

(** ** The kettle's publishing loop *)

Module XiaomiKettle.

Definition ACTIVE_SLEEP_INTERVAL : Z := 1.
Definition SEND_INTERVAL : Z := 30.
Definition TEMPERATURE_ENTITY : string := "temperature".

(** Modelled from the spec: the constant [SENSOR_DOMAIN] of
    [devices/base.py], which is not among the sources; the specification
    names the entity domains "sensor" and "switch". *)
Definition SENSOR_DOMAIN : string := "sensor".

(** An entity descriptor; of its keys only ['name'] is read here. *)
Record entity : Set := mk_entity {
  name : string;
  device_class : string;
  unit_of_measurement : string;
}.

(** The [entities] property: a dict from domain to entity list. *)
Definition entities : gmap string (list entity) :=
  {[ SENSOR_DOMAIN :=
       [ mk_entity TEMPERATURE_ENTITY "temperature" "°C" ] ]}.

Section Handle.
(** The values a JSON object holds. *)
Context {V : Type}.

(** What the loop uses of the [Device] base class, which is not among
    the sources: the unique id, the current link quality and the
    transformation applied to a sensor reading. *)
Record device : Type := mk_device {
  unique_id : string;
  linkquality : V;
  transform_value : Z -> V;
}.

Inductive event : Type :=
| UpdateDeviceData                                  (* update_device_data(send_config) *)
| LogInfo
| Publish (topic : string) (value : list (string * V))  (* publish_topic(topic, json.dumps(value)) *)
| Sleep (seconds : Z).

(** [d[k] = v] on a dict, which keeps insertion order. *)
Fixpoint dict_set (d : list (string * V)) (k : string) (v : V)
  : list (string * V) :=
  match d with
  | [] => [(k, v)]
  | (k', v') :: d' =>
      if String.eqb k' k then (k, v) :: d' else (k', v') :: dict_set d' k v
  end.

(** ['/'.join((a, b))] *)
Definition join (a b : string) : string := a +:+ "/" +:+ b.

(** [_notify_state], called with [self._state] set to [st]. The
    payload is kept as the object that [json.dumps] serialises. *)
Definition _notify_state (dev : device) (st : MiKettleState.t)
  : list event :=
  let state :=
    foldl
      (fun state '(sensor_name, value) =>
         if existsb (fun x => String.eqb (name x) sensor_name)
              (default [] (entities !! "sensor"))
         then dict_set state sensor_name (transform_value dev value)
         else state)
      []
      [("temperature", MiKettleState.temperature st)] in
  LogInfo ::
  match state with
  | [] => []
  | _ :: _ =>
      let state := dict_set state "linkquality" (linkquality dev) in
      [Publish (join (unique_id dev) "state") state]
  end.

(** What one iteration of the loop meets: the value of [self._state]
    (set by [notification_handler] between iterations) and the two
    readings of [time.time()], the one compared with [send_time] and
    the one stored in it. Clock readings are floats. *)
Record tick : Set := mk_tick {
  state_now : option MiKettleState.t;
  clock_check : float;
  clock_record : float;
}.

(** The float an integer is compared as; exact for the integers from 0
    to 2^53, among them [SEND_INTERVAL]. *)
Definition float_of_int (z : Z) : float :=
  PrimFloat.of_uint63 (Uint63.of_Z z).

(** Truth value of [send_time]: [None] and a float equal to zero ([0.0]
    and [-0.0]) are false; every other float, NaN included, is true. *)
Definition truthy (send_time : option float) : bool :=
  match send_time with
  | None => false
  | Some t => negb (PrimFloat.eqb t 0%float)
  end.

(** [(time.time() - send_time) > SEND_INTERVAL], evaluated only when
    [send_time] is a number: the binary64 subtraction, rounded to
    nearest, and the comparison of the difference with 30, which is
    false for NaN. *)
Definition interval_passed (send_time : option float) (now : float)
  : bool :=
  match send_time with
  | None => false
  | Some t => PrimFloat.ltb (float_of_int SEND_INTERVAL) (PrimFloat.sub now t)
  end.

(** The body of [while True] in [handle]: the events of the
    iteration and the new value of [send_time]. An instance of
    [MiKettleState] is always true, so [self._state] is true exactly
    when it is not [None]. *)
Definition handle_iteration (dev : device) (send_time : option float)
    (tk : tick) : list event * option float :=
  match state_now tk with
  | Some st =>
      if negb (truthy send_time) || interval_passed send_time (clock_check tk)
      then
        let send_time := Some (clock_record tk) in
        (UpdateDeviceData :: _notify_state dev st
           ++ [Sleep ACTIVE_SLEEP_INTERVAL],
         send_time)
      else ([UpdateDeviceData; Sleep ACTIVE_SLEEP_INTERVAL], send_time)
  | None => ([UpdateDeviceData; Sleep ACTIVE_SLEEP_INTERVAL], send_time)
  end.

(** The loop, for as many iterations as there are ticks. *)
Fixpoint handle_loop (dev : device) (send_time : option float)
    (ticks : list tick) : list event :=
  match ticks with
  | [] => []
  | tk :: ticks' =>
      let r := handle_iteration dev send_time tk in
      r.1 ++ handle_loop dev r.2 ticks'
  end.

(** The value of [send_time] after the iterations of [ticks]. *)
Definition send_time_after (dev : device) (send_time : option float)
    (ticks : list tick) : option float :=
  foldl (fun send_time tk => (handle_iteration dev send_time tk).2)
    send_time ticks.

(** [handle]: [send_time = None], then the loop. *)
Definition handle (dev : device) (ticks : list tick) : list event :=
  handle_loop dev None ticks.

End Handle.

End XiaomiKettle.

(** ** [bytes.decode()] *)

Module Utf8.

(** The values of the bytes of a byte string. *)
Fixpoint codes (s : string) : list Z :=
  match s with
  | EmptyString => []
  | String c s' => Z.of_N (Ascii.N_of_ascii c) :: codes s'
  end.

Definition within (lo hi b : Z) : bool := (lo <=? b) && (b <=? hi).

(** A continuation byte. *)
Definition cont (b : Z) : bool := within 128 191 b.

(** Whether a byte sequence is UTF-8, as the strict decoder accepts it:
    no overlong form, no surrogate, nothing above U+10FFFF, no truncated
    sequence. *)
Fixpoint well_formed (bs : list Z) : bool :=
  match bs with
  | [] => true
  | b0 :: bs1 =>
      if b0 <=? 127 then well_formed bs1
      else
        match bs1 with
        | [] => false
        | b1 :: bs2 =>
            if within 194 223 b0 then cont b1 && well_formed bs2
            else
              match bs2 with
              | [] => false
              | b2 :: bs3 =>
                  if within 224 239 b0 then
                    (if b0 =? 224 then within 160 191 b1
                     else if b0 =? 237 then within 128 159 b1
                     else cont b1)
                    && cont b2 && well_formed bs3
                  else
                    match bs3 with
                    | [] => false
                    | b3 :: bs4 =>
                        within 240 244 b0
                        && (if b0 =? 240 then within 144 191 b1
                            else if b0 =? 244 then within 128 143 b1
                            else cont b1)
                        && cont b2 && cont b3 && well_formed bs4
                    end
              end
        end
  end.

(** [payload.decode()]: the text, held as its UTF-8 bytes, or
    [UnicodeDecodeError], which is a [ValueError]. *)
Definition decode (payload : string) : result string :=
  if well_formed (codes payload) then Ok payload else Raise ValueError.

End Utf8.

(** ** The bridge *)

Module Device.
(** What the bridge reads of a registered device. *)
Record t : Set := mk {
  unique_id : string;
  subscribed_topics : list string;
}.
End Device.

Module Ble2Mqtt.

Definition TOPIC_ROOT : string := "ble2mqtt".

(** ['/'.join((a, b))] *)
Definition join (a b : string) : string := a +:+ "/" +:+ b.

(** [x in xs] on a list of strings. *)
Definition contains (xs : list string) (x : string) : bool :=
  existsb (String.eqb x) xs.

(** The [subscribed_topics] property of the bridge. *)
Definition subscribed_topics (device_registry : list Device.t)
  : list string :=
  device ← device_registry;
  topic ← Device.subscribed_topics device;
  [join TOPIC_ROOT topic].

(** [s] without the leading [prefix], when [s] starts with it. *)
Fixpoint strip (prefix s : string) : option string :=
  match prefix, s with
  | EmptyString, _ => Some s
  | String a prefix', String b s' =>
      if Ascii.eqb a b then strip prefix' s' else None
  | String _ _, EmptyString => None
  end.

(** [str.removeprefix] *)
Definition removeprefix (s prefix : string) : string :=
  default s (strip prefix s).

Record message : Set := mk_message {
  topic_name : string;
  payload : string;
}.

(** How a loop is left, as far as it has been followed. [Running]: the
    steps followed are used up and the loop has not been left. *)
Inductive outcome : Set :=
| Returned
| Raised (e : exn)
| Running.

(** [except Exception] catches every exception of [exn] but
    [CancelledError]. *)
Definition is_Exception (e : exn) : bool :=
  match e with
  | CancelledError => false
  | _ => true
  end.

Section Bridge.
(** Parsed JSON and [json.loads], which fails with [ValueError]
    ([None]) on a payload that is not JSON. *)
Context {J : Type} (json_loads : string -> option J).

Inductive value : Type :=
| Structured (j : J)
| Text (s : string).

(** What the loops do that can be seen from outside; debug log lines
    are left out. *)
Inductive event : Type :=
| LogInfo (msg : string)
| LogWarning (msg : string)
| LogError (msg : string)
| LogException
| Sleep (seconds : Z)
(* _handle_messages *)
| IsConnected (dev : string)
| ProcessTopic (dev : string) (topic : string) (v : value)
(* manage_device *)
| DeviceConnect (dev : string)
| SendDeviceConfig (dev : string)
| DeviceInit (dev : string)
| Subscribe (topics : list string)
| CreateHandleTask (dev : string)
| AwaitDisconnected (dev : string)
| PopHandle (dev : string)
| TaskDone (dev : string) (done : bool)
| CancelTask (dev : string)
| AwaitTask (dev : string)
| Unsubscribe (topics : list string)
(* _connect_forever *)
| Connect
| PublishAvailability (payload : string)
| CreateManageDeviceTask (dev : string)
| AwaitDisconnectReason.

(** *** [_handle_messages] *)

(** What the awaited calls made for one delivered message answer:
    [is_connected k] is what [await device.client.is_connected()] gives
    in pass [k] of the inner loop; the other two are the exceptions that
    [await device.process_topic(...)] and [await aio.sleep(1)] raise, if
    any. *)
Record answers : Type := mk_answers {
  is_connected : nat -> result bool;
  process_topic : option exn;
  sleep : option exn;
}.

(** The value handed to [process_topic]: [json.loads(message.payload)]
    and, when that raises [ValueError], [message.payload.decode()],
    whose [UnicodeDecodeError] is not caught. *)
Definition decoded (msg : message) : result value :=
  match json_loads (payload msg) with
  | Some j => Ok (Structured j)
  | None => text ← Utf8.decode (payload msg); Ok (Text text)
  end.

(** The pass that finds the device connected, from the decoding of the
    payload to the [break]: the events, the answer of [is_connected]
    included, and the way the inner loop is left. *)
Definition handed_over (env : answers) (msg : message)
    (topic_wo_prefix : string) (device : Device.t)
  : list event * outcome :=
  match decoded msg with
  | Raise e => ([IsConnected (Device.unique_id device)], Raised e)
  | Ok value =>
      ([IsConnected (Device.unique_id device);
        ProcessTopic (Device.unique_id device) topic_wo_prefix value],
       match process_topic env with
       | Some e => Raised e
       | None => Returned
       end)
  end.

(** The inner [while True] for one delivered message. [fuel] bounds
    the number of passes that are followed and [pass] numbers the
    current one. Each [continue] starts the next pass on the same
    message; [Returned] stands for the [break]. *)
Fixpoint examine (fuel : nat) (device_registry : list Device.t)
    (env : answers) (pass : nat) (msg : message)
  : list event * outcome :=
  match fuel with
  | O => ([], Running)
  | S fuel' =>
      if negb (contains (subscribed_topics device_registry)
                 (topic_name msg))
      then examine fuel' device_registry env (S pass) msg
      else
        let topic_wo_prefix :=
          removeprefix (topic_name msg) (TOPIC_ROOT +:+ "/") in
        match find (fun _device =>
                      contains (Device.subscribed_topics _device)
                        topic_wo_prefix) device_registry with
        | None => ([], Raised NotImplementedError)
        | Some device =>
            match is_connected env pass with
            | Raise e => ([IsConnected (Device.unique_id device)], Raised e)
            | Ok false =>
                let r := examine fuel' device_registry env (S pass) msg in
                (IsConnected (Device.unique_id device)
                 :: LogWarning "offline" :: r.1, r.2)
            | Ok true => handed_over env msg topic_wo_prefix device
            end
        end
  end.


(** The [async for] over the delivered messages, each paired with the
    answers of the calls awaited while it is handled. *)
Fixpoint _handle_messages (fuel : nat) (device_registry : list Device.t)
    (delivered : list (message * answers))
  : list event * outcome :=
  match delivered with
  | [] => ([], Running)
  | (msg, env) :: delivered' =>
      let r := examine fuel device_registry env 0 msg in
      match r.2 with
      | Returned =>
          match sleep env with
          | Some e => (r.1 ++ [Sleep 1], Raised e)
          | None =>
              let r' := _handle_messages fuel device_registry delivered' in
              (r.1 ++ Sleep 1 :: r'.1, r'.2)
          end
      | o => (r.1, o)
      end
  end.

(** *** [manage_device] *)

(** What one pass of the supervisor's loop meets: for each awaited
    call the exception it raises, if any; whether the handle task has
    finished when the teardown looks at it. *)
Record cycle : Set := mk_cycle {
  c_connect : option exn;        (* device.connect() *)
  c_sleep_retry : option exn;    (* aio.sleep(10), after a failed connect *)
  c_send_config : option exn;    (* self.send_device_config(device) *)
  c_init : option exn;           (* device.init() *)
  c_subscribe : option exn;      (* self._client.subscribe(...) *)
  c_create_task : option exn;    (* create_task(device.handle(...)) *)
  c_disconnected : option exn;   (* await device.disconnected_future *)
  c_task_done : bool;            (* task.done() *)
  c_await_task : option exn;     (* await task, after task.cancel() *)
  c_unsubscribe : option exn;    (* self._client.unsubscribe(...) *)
  c_sleep_next : option exn;     (* aio.sleep(3), after the teardown *)
}.

(** How one pass of the loop ends. *)
Inductive cycle_end : Set :=
| NextCycle
| Propagates (e : exn).

Definition root_topics (device : Device.t) : list string :=
  join TOPIC_ROOT <$> Device.subscribed_topics device.

(** The second [try] block: events, the exception it raised, and
    whether [self._device_handles[device]] has been assigned. When the
    call of [device.handle] or [create_task] raises, the assignment has
    not taken place. *)
Definition try_block (device : Device.t) (c : cycle) (handle_set : bool)
  : list event * option exn * bool :=
  let id := Device.unique_id device in
  match c_send_config c with
  | Some e => ([SendDeviceConfig id], Some e, handle_set)
  | None =>
  match c_init c with
  | Some e => ([SendDeviceConfig id; DeviceInit id], Some e, handle_set)
  | None =>
  match c_subscribe c with
  | Some e =>
      ([SendDeviceConfig id; DeviceInit id; Subscribe (root_topics device)],
       Some e, handle_set)
  | None =>
  match c_create_task c with
  | Some e =>
      ([SendDeviceConfig id; DeviceInit id; Subscribe (root_topics device);
        CreateHandleTask id],
       Some e, handle_set)
  | None =>
      ([SendDeviceConfig id; DeviceInit id; Subscribe (root_topics device);
        CreateHandleTask id; AwaitDisconnected id],
       c_disconnected c, true)
  end end end end.

(** The [finally] block, entered with the exception the [try] block
    raised, and the pause of 3 seconds that follows it. [pop] raises
    [KeyError] when the key is absent; a task object is always true;
    [continue] in [finally] discards the pending exception. *)
Definition finally_block (device : Device.t) (c : cycle)
    (pending : option exn) (handle_set : bool)
  : list event * cycle_end :=
  let id := Device.unique_id device in
  if negb handle_set then ([PopHandle id], Propagates KeyError)
  else if c_task_done c then
    ([PopHandle id; TaskDone id true], NextCycle)
  else
    let teardown := [PopHandle id; TaskDone id false;
                     CancelTask id; AwaitTask id] in
    let unsubscribe :=
      match c_unsubscribe c with
      | Some e => (teardown ++ [Unsubscribe (root_topics device)],
                   Propagates e)
      | None =>
          match pending with
          | Some e => (teardown ++ [Unsubscribe (root_topics device)],
                       Propagates e)
          | None =>
              (teardown ++ [Unsubscribe (root_topics device); Sleep 3],
               match c_sleep_next c with
               | Some e => Propagates e
               | None => NextCycle
               end)
          end
      end in
    match c_await_task c with
    | None | Some CancelledError => unsubscribe
    | Some e => (teardown, Propagates e)
    end.

(** One pass of [while True] in [manage_device]. *)
Definition run_cycle (device : Device.t) (c : cycle)
  : list event * cycle_end :=
  let id := Device.unique_id device in
  match c_connect c with
  | Some e =>
      if is_Exception e
      then ([DeviceConnect id; LogException; Sleep 10],
            match c_sleep_retry c with
            | Some e' => Propagates e'
            | None => NextCycle
            end)
      else ([DeviceConnect id], Propagates e)
  | None =>
      let b := try_block device c false in
      let f := finally_block device c b.1.2 b.2 in
      (DeviceConnect id :: b.1.1 ++ f.1, f.2)
  end.

(** [manage_device], one pass per element of [cycles]. Every pass
    leaves [self._device_handles] without the device's key, so each
    starts with the key absent. *)
Fixpoint manage_device (device : Device.t) (cycles : list cycle)
  : list event * outcome :=
  match cycles with
  | [] => ([], Running)
  | c :: cycles' =>
      let r := run_cycle device c in
      match r.2 with
      | NextCycle =>
          let r' := manage_device device cycles' in
          (r.1 ++ r'.1, r'.2)
      | Propagates e => (r.1, Raised e)
      end
  end.

(** *** [_connect_forever] *)

(** What one pass of the connection loop meets: for each awaited call
    the exception it raises, if any. *)
Record attempt : Set := mk_attempt {
  a_connect : option exn;            (* self._client.connect(...) *)
  a_publish_online : option exn;     (* publish 'online' *)
  a_disconnect_reason : option exn;  (* await connect_result.disconnect_reason *)
  a_publish_offline : option exn;    (* publish 'offline' in a handler *)
}.

(** The [try] block: its events and the exception it raised. *)
Definition connect_block (device_registry : list Device.t) (a : attempt)
  : list event * option exn :=
  match a_connect a with
  | Some e => ([Connect], Some e)
  | None =>
  match a_publish_online a with
  | Some e =>
      ([Connect; LogInfo "Connected"; PublishAvailability "online"], Some e)
  | None =>
      ([Connect; LogInfo "Connected"; PublishAvailability "online"]
       ++ (CreateManageDeviceTask ∘ Device.unique_id <$> device_registry)
       ++ [LogInfo "Wait for network interruptions...";
           AwaitDisconnectReason],
       a_disconnect_reason a)
  end end.

(** The best-effort publication of 'offline': [except Exception: pass]. *)
Definition publish_offline (a : attempt) (after : list event)
  : list event * outcome :=
  match a_publish_offline a with
  | Some e =>
      if is_Exception e
      then (PublishAvailability "offline" :: after, Returned)
      else ([PublishAvailability "offline"], Raised e)
  | None => (PublishAvailability "offline" :: after, Returned)
  end.

(** [_connect_forever], one pass of [while True] per element of
    [attempts]; the [except] clauses in the order of the source. The
    sleep of the connection-lost clause is taken to succeed. *)
Fixpoint _connect_forever (device_registry : list Device.t)
    (reconnection_interval : Z) (attempts : list attempt)
  : list event * outcome :=
  match attempts with
  | [] => ([], Running)
  | a :: attempts' =>
      let b := connect_block device_registry a in
      let again := _connect_forever device_registry
                     reconnection_interval attempts' in
      match b.2 with
      | Some CancelledError => (b.1, Raised CancelledError)
      | Some AccessRefusedError =>
          (b.1 ++ LogError "Access refused" :: again.1, again.2)
      | Some ConnectionLostError =>
          (b.1 ++ LogError "Connection lost. Will retry in %d seconds"
               :: Sleep reconnection_interval :: again.1,
           again.2)
      | Some ConnectionCloseForcedError =>
          (b.1 ++ [LogError "Connection close forced"], Returned)
      | Some _ =>
          let r := publish_offline a [] in
          (b.1 ++ LogError "Unhandled exception during connecting" :: r.1,
           r.2)
      | None =>
          let r := publish_offline a [LogInfo "Disconnected"] in
          (b.1 ++ r.1, r.2)
      end
  end.

End Bridge.

End Ble2Mqtt.

(** ** Concrete inputs used in the examples *)

Module Sample.

(** A kettle with link quality 60 whose readings are published as they
    are. *)
Definition kettle : XiaomiKettle.device :=
  XiaomiKettle.mk_device "mikettle_aabbccddeeff" 60 (fun v => v).

(** Three iterations before the first status notification. *)
Definition idle_ticks : list XiaomiKettle.tick :=
  [XiaomiKettle.mk_tick None 1700000000%float 1700000000%float;
   XiaomiKettle.mk_tick None 1700000001%float 1700000001%float;
   XiaomiKettle.mk_tick None 1700000002%float 1700000002%float].

(** The clock reading recorded at the last publish. *)
Definition last_publish : float := 1700000000%float.

(** An iteration with the state present, exactly 30 s after
    [last_publish]. *)
Definition tick_at_30s : XiaomiKettle.tick :=
  XiaomiKettle.mk_tick (Some MiKettleState.expected)
    1700000030%float 1700000030%float.

(** The same half a second later; the second reading of the clock is
    1700000031. *)
Definition tick_after_30s : XiaomiKettle.tick :=
  XiaomiKettle.mk_tick (Some MiKettleState.expected)
    1700000030.5%float 1700000031%float.

(** A last publish at 2^-49 s and a reading at 30 + 2^-48 s: more than
    30 s apart, and a binary64 difference of 30.0 exactly. *)
Definition early_publish : float := 0x1p-49%float.

Definition tick_rounding : XiaomiKettle.tick :=
  XiaomiKettle.mk_tick (Some MiKettleState.expected)
    0x1.e000000000001p+4%float 31%float.

(** A registered device with one command topic. *)
Definition plug : Device.t :=
  Device.mk "plug1" ["plug1/power/set"].

(** No payload is JSON. *)
Definition no_json (payload : string) : option Empty_set := None.


(** The device is connected and nothing raises. *)
Definition online : Ble2Mqtt.answers :=
  Ble2Mqtt.mk_answers (fun _ => Ok true) None None.

Definition command : Ble2Mqtt.message :=
  Ble2Mqtt.mk_message "ble2mqtt/plug1/power/set" "ON".

Definition stray : Ble2Mqtt.message :=
  Ble2Mqtt.mk_message "ble2mqtt/plug1/other" "ON".

(** A command whose payload is the single byte 0xFF, which is neither
    JSON nor UTF-8. *)
Definition garbled : Ble2Mqtt.message :=
  Ble2Mqtt.mk_message "ble2mqtt/plug1/power/set"
    (String (Ascii.ascii_of_N 255) EmptyString).

(** A pass of the supervisor in which every call succeeds and the handle
    task is cancelled while running; [serve] is what awaiting the
    disconnect signal raises. *)
Definition served (serve : option exn) : Ble2Mqtt.cycle :=
  Ble2Mqtt.mk_cycle None None None None None None serve false
    (Some CancelledError) None None.

Definition refused : Ble2Mqtt.attempt :=
  Ble2Mqtt.mk_attempt (Some AccessRefusedError) None None None.

Definition forced : Ble2Mqtt.attempt :=
  Ble2Mqtt.mk_attempt (Some ConnectionCloseForcedError) None None None.

End Sample.

(** ** Strings the driver parses *)

Module PyStr.

(** [len(s)]: the number of code points of a string held as UTF-8, that
    is of the bytes that do not continue a character. *)
Fixpoint len (s : string) : Z :=
  match s with
  | EmptyString => 0
  | String c s' =>
      (if Z.land (Z.of_N (Ascii.N_of_ascii c)) 192 =? 128 then 0 else 1) + len s'
  end.

(** [s.split(sep)] for a separator of one ASCII character. *)
Fixpoint split (sep : Ascii.ascii) (s : string) : list string :=
  match s with
  | EmptyString => [EmptyString]
  | String c s' =>
      if Ascii.eqb c sep then EmptyString :: split sep s'
      else
        match split sep s' with
        | part :: parts => String c part :: parts
        | [] => [String c EmptyString]
        end
  end.

(** [sep.join(parts)] for a separator of one character. *)
Fixpoint join (sep : Ascii.ascii) (parts : list string) : string :=
  match parts with
  | [] => EmptyString
  | [part] => part
  | part :: parts' => part +:+ String sep (join sep parts')
  end.

(** The value of a hexadecimal digit, of either case. *)
Definition digit (c : Ascii.ascii) : option Z :=
  let n := Z.of_N (Ascii.N_of_ascii c) in
  if (48 <=? n) && (n <=? 57) then Some (n - 48)
  else if (97 <=? n) && (n <=? 102) then Some (n - 87)
  else if (65 <=? n) && (n <=? 70) then Some (n - 55)
  else None.

(** ASCII whitespace: tab, line feed, vertical tab, form feed, carriage
    return, space. *)
Definition isspace (c : Ascii.ascii) : bool :=
  let n := Z.of_N (Ascii.N_of_ascii c) in
  ((9 <=? n) && (n <=? 13)) || (n =? 32).

(** [bytes.fromhex(s)] and [bytearray.fromhex(s)]: two hexadecimal digits
    per byte, ASCII whitespace skipped between bytes, [ValueError] on
    anything else. *)
Fixpoint fromhex (s : string) : result (list Z) :=
  match s with
  | EmptyString => Ok []
  | String c s' =>
      if isspace c then fromhex s'
      else
        match digit c, s' with
        | Some top, String d s'' =>
            match digit d with
            | Some bot => rest ← fromhex s''; Ok (top * 16 + bot :: rest)
            | None => Raise ValueError
            end
        | _, _ => Raise ValueError
        end
  end.

(** The number of whitespace characters of a string. *)
Fixpoint spaces (s : string) : Z :=
  match s with
  | EmptyString => 0
  | String c s' => (if isspace c then 1 else 0) + spaces s'
  end.

(** The string of two characters. *)
Definition pair (hi lo : Ascii.ascii) : string := String hi (String lo EmptyString).

End PyStr.

(** ** The key derivation and the handshake of the kettle *)

Module XiaomiAuth.
Import Stdlib.Strings.Ascii Store Py XiaomiCipherMixin.

(** [AUTH_MAGIC1] *)
Definition AUTH_MAGIC1 : list Z := [144; 202; 133; 222].

Definition HANDLE_AUTH : Z := 36.
Definition HANDLE_STATUS : Z := 60.

(** [bytes(vs)] on a list of integers. *)
Definition bytes_new (vs : list Z) : result (list Z) :=
  if forallb is_byteb vs then Ok vs else Raise ValueError.

(** [reverse_mac]: the parts are taken from the last to the first. *)
Definition reverse_mac (mac : string) : result (list Z) :=
  let parts := PyStr.split ":"%char mac in
  let length := length parts in
  foldl
    (fun reversed_mac i =>
       acc ← reversed_mac;
       match parts !! (length - i)%nat with
       | Some part => octets ← PyStr.fromhex part; Ok (acc ++ octets)
       | None => Raise IndexError
       end)
    (Ok []) (seq 1 length).

Definition mix_a (mac : list Z) (product_id : Z) : result (list Z) :=
  m0 ← bytes_getitem mac 0;
  m2 ← bytes_getitem mac 2;
  m5 ← bytes_getitem mac 5;
  m4 ← bytes_getitem mac 4;
  m5' ← bytes_getitem mac 5;
  m1 ← bytes_getitem mac 1;
  bytes_new [m0; m2; m5; Z.land product_id 255; Z.land product_id 255;
             m4; m5'; m1].

Definition mix_b (mac : list Z) (product_id : Z) : result (list Z) :=
  m0 ← bytes_getitem mac 0;
  m2 ← bytes_getitem mac 2;
  m5 ← bytes_getitem mac 5;
  m4 ← bytes_getitem mac 4;
  m0' ← bytes_getitem mac 0;
  m5' ← bytes_getitem mac 5;
  bytes_new [m0; m2; m5; Z.land (Z.shiftr product_id 8) 255; m4; m0'; m5';
             Z.land product_id 255].

(** The token of [__init__]: a configured token that is true must be a
    string of 24 characters and is decoded from hexadecimal; otherwise the
    fixed token is used. A failed [assert] is an [AssertionError], one of
    the exceptions [RuntimeError] stands for. *)
Definition init_token (token : option string) : result (list Z) :=
  match token with
  | Some (String _ _ as token) =>
      if PyStr.len token =? 24 then PyStr.fromhex token
      else Raise RuntimeError
  | _ => Ok generate_random_token
  end.

(** The characteristics of the kettle. *)
Inductive uuid : Set :=
| UUID_AUTH_INIT | UUID_AUTH | UUID_VER | UUID_STATUS.

(** The calls [auth] makes on the BLE client and on its queue. *)
Inductive gatt_event : Set :=
| WriteGattChar (u : uuid) (data : list Z) (response : bool)
| StartNotify (u : uuid)
| StopNotify (u : uuid)
| ReadGattChar (u : uuid)
| QueueGet (timeout : Z).

(** What the awaited calls of [auth] meet: the exception each raises, if
    any; [a_reply] is the item [queue.get()] returns within the timeout,
    or the exception of [wait_for] ([asyncio.TimeoutError] is one of the
    exceptions [RuntimeError] stands for). *)
Record auth_env : Set := mk_auth_env {
  a_write_init : option exn;
  a_start_notify : option exn;
  a_write_token : option exn;
  a_reply : result (Z * list Z);
  a_write_magic : option exn;
  a_read_ver : option exn;
  a_stop_notify : option exn;
}.

(** The argument of the second write: it is computed before the call. *)
Definition token_message (mac : string) (product_id : Z) (token : list Z)
  : py (list Z) :=
  key ← lift (reversed ← reverse_mac mac; mix_a reversed product_id);
  cipher key token.

(** [auth]: the calls made, in order, and how it ends. *)
Definition auth (mac : string) (product_id : Z) (token : list Z)
    (env : auth_env) (σ : gmap ref (list Z))
  : list gatt_event * result unit * gmap ref (list Z) :=
  let t1 := [WriteGattChar UUID_AUTH_INIT AUTH_MAGIC1 true] in
  match a_write_init env with
  | Some e => (t1, Raise e, σ)
  | None =>
  let t2 := t1 ++ [StartNotify UUID_AUTH] in
  match a_start_notify env with
  | Some e => (t2, Raise e, σ)
  | None =>
  match token_message mac product_id token σ with
  | (Raise e, σ1) => (t2, Raise e, σ1)
  | (Ok message1, σ1) =>
  let t3 := t2 ++ [WriteGattChar UUID_AUTH message1 true] in
  match a_write_token env with
  | Some e => (t3, Raise e, σ1)
  | None =>
  let t4 := t3 ++ [QueueGet 10] in
  match a_reply env with
  | Raise e => (t4, Raise e, σ1)
  | Ok auth_response =>
  match cipher token AUTH_MAGIC2 σ1 with
  | (Raise e, σ2) => (t4, Raise e, σ2)
  | (Ok message2, σ2) =>
  let t5 := t4 ++ [WriteGattChar UUID_AUTH message2 true] in
  match a_write_magic env with
  | Some e => (t5, Raise e, σ2)
  | None =>
  let t6 := t5 ++ [ReadGattChar UUID_VER] in
  match a_read_ver env with
  | Some e => (t6, Raise e, σ2)
  | None =>
  let t7 := t6 ++ [StopNotify UUID_AUTH] in
  match a_stop_notify env with
  | Some e => (t7, Raise e, σ2)
  | None => (t7, Ok tt, σ2)
  end end end end end end end end end.

(** The state [notification_handler] works on: [self._state] and the
    items of [self.queue], which is [None] until [get_device_data]
    creates it. *)
Record kettle : Set := mk_kettle {
  _state : option MiKettleState.t;
  queue : option (list (Z * list Z));
}.

(** [notification_handler]: the new state of the kettle, or the
    exception raised, which leaves the kettle as it was. Putting into a
    queue that is [None] is an [AttributeError], one of the exceptions
    [RuntimeError] stands for; the queue is unbounded. *)
Definition notification_handler (k : kettle) (sender : Z) (data : list Z)
  : result kettle :=
  if sender =? HANDLE_STATUS then
    st ← MiKettleState.from_bytes data;
    Ok (mk_kettle (Some st) (queue k))
  else
    match queue k with
    | Some items => Ok (mk_kettle (_state k) (Some (items ++ [(sender, data)])))
    | None => Raise RuntimeError
    end.

(** The notifications delivered one after the other; one whose handler
    raises leaves the kettle as it was. *)
Definition deliver (k : kettle) (notifications : list (Z * list Z)) : kettle :=
  foldl
    (fun k '(sender, data) =>
       match notification_handler k sender data with
       | Ok k' => k'
       | Raise _ => k
       end)
    k notifications.

End XiaomiAuth.

(** ** The rest of the bridge *)

Module Bridge.
Import Ble2Mqtt.

(** [register]: a device that is [None] is not registered; a device
    object is always true. *)
Definition register (device_registry : list Device.t)
    (device : option Device.t) : list Device.t :=
  match device with
  | None => device_registry
  | Some device => device_registry ++ [device]
  end.

(** [_get_topic] *)
Definition _get_topic (dev_id subtopic : string) : string :=
  join TOPIC_ROOT (join dev_id subtopic).

(** The topic name [publish_topic_callback] publishes to. *)
Definition publish_topic_callback (topic : string) : string :=
  join TOPIC_ROOT topic.


(** The supervisor tasks a trace creates, by device. *)
Definition spawned {J} (trace : list (event (J:=J))) : list string :=
  omap (fun e => match e with
                 | CreateManageDeviceTask dev => Some dev
                 | _ => None
                 end) trace.

(** *** [close] *)

(** A task of [self._tasks]: whether it is done, and what awaiting it
    raises once it has been cancelled ([None]: the await returns). *)
Record task : Set := mk_task {
  t_done : bool;
  t_await : option exn;
}.

Inductive close_event : Set :=
| Cancel (i : nat)         (* task.cancel() on the task of index i *)
| Await (i : nat)          (* await task *)
| Disconnect.              (* self._client.disconnect() *)

(** The [for] loop of [close] from the task of index [i] on: the events
    and the exception that ends it, if any. *)
Fixpoint close_tasks (i : nat) (tasks : list task)
  : list close_event * option exn :=
  match tasks with
  | [] => ([], None)
  | t :: tasks' =>
      if t_done t then close_tasks (S i) tasks'
      else
        match t_await t with
        | None | Some CancelledError =>
            let r := close_tasks (S i) tasks' in
            (Cancel i :: Await i :: r.1, r.2)
        | Some e => ([Cancel i; Await i], Some e)
        end
  end.

(** [close]: [is_connected] is what [self._client.is_connected()]
    answers, [disconnect] what awaiting the disconnection raises. *)
Definition close (tasks : list task) (is_connected : bool)
    (disconnect : option exn) : list close_event * result unit :=
  let r := close_tasks 0 tasks in
  match r.2 with
  | Some e => (r.1, Raise e)
  | None =>
      if is_connected then
        (r.1 ++ [Disconnect],
         match disconnect with
         | Some e => Raise e
         | None => Ok tt
         end)
      else (r.1, Ok tt)
  end.

End Bridge.

(** ** Discovery *)

Module Discovery.
Import Ble2Mqtt.

Definition CONFIG_MQTT_NAMESPACE : string := "homeassistant".

(** What [send_device_config] reads of the device; the attributes set
    after a connection may be [None]. [SET_POSTFIX] is a constant of the
    [Device] base class, which is not among the sources. *)
Record device : Set := mk_device {
  unique_id : string;
  dev_id : string;
  version : option string;
  model : option string;
  manufacturer : option string;
  SET_POSTFIX : string;
}.

(** [device_info] *)
Record device_info : Set := mk_info {
  identifiers : list string;
  info_name : string;
  sw_version : option string;
  info_model : option string;
  info_manufacturer : option string;
}.

(** The values of a payload. *)
Inductive pv : Set :=
| PStr (s : string)
| PDevice (info : device_info).

(** What is published: the JSON object [json.dumps] serialises, or a
    plain string. An entity descriptor is a dict from strings to strings,
    as the entities of the kettle are; dicts are finite maps. *)
Inductive payload : Type :=
| PJson (d : gmap string pv)
| PRaw (s : string).

Inductive event : Type :=
| Publish (topic_name : string) (p : payload) (retain : bool).

(** [get_generic_vals]: the dict it returns and the entity as the two
    [pop] leave it; [KeyError] when the entity has no name. An icon that
    is the empty string is false. [result.update(entity)] lets the keys
    of the entity win. *)
Definition get_generic_vals (dev : device) (info : device_info)
    (entity : gmap string string)
  : result (gmap string pv * gmap string string) :=
  match entity !! "name" with
  | None => Raise KeyError
  | Some name =>
      let entity := delete "name" entity in
      let result : gmap string pv :=
        <["name" := PStr (name +:+ "_" +:+ dev_id dev)]>
          (<["unique_id" := PStr (name +:+ "_" +:+ dev_id dev)]>
             (<["device" := PDevice info]> ∅)) in
      let icon := entity !! "icon" in
      let entity := delete "icon" entity in
      let result :=
        match icon with
        | Some (String _ _ as icon) =>
            <["icon" := PStr ("mdi:" +:+ icon)]> result
        | _ => result
        end in
      Ok ((PStr <$> entity) ∪ result, entity)
  end.

(** One entity of the class ['switch']: the publications so far, the
    exception raised and the entity as it is left. [fails k] is the
    exception the publication number [k] raises, if any. *)
Definition config_switch (dev : device) (info : device_info)
    (fails : nat -> option exn) (entity : gmap string string)
    (trace : list event)
  : list event * option exn * gmap string string :=
  match entity !! "name" with
  | None => (trace, Some KeyError, entity)
  | Some entity_name =>
      let state_topic := Bridge._get_topic (unique_id dev) entity_name in
      let command_topic := join state_topic (SET_POSTFIX dev) in
      let config_topic :=
        join CONFIG_MQTT_NAMESPACE
          (join "switch" (join (dev_id dev) (join entity_name "config"))) in
      match get_generic_vals dev info entity with
      | Raise e => (trace, Some e, entity)
      | Ok (generic, entity) =>
          let payload :=
            <["command_topic" := PStr command_topic]>
              (<["state_topic" := PStr state_topic]> generic) in
          let trace1 := trace ++ [Publish config_topic (PJson payload) true] in
          match fails (length trace) with
          | Some e => (trace1, Some e, entity)
          | None =>
              let trace2 := trace1 ++ [Publish state_topic (PRaw "OFF") false] in
              (trace2, fails (length trace1), entity)
          end
      end
  end.

(** One entity of the class ['sensor']. *)
Definition config_sensor (dev : device) (info : device_info)
    (fails : nat -> option exn) (entity : gmap string string)
    (trace : list event)
  : list event * option exn * gmap string string :=
  match entity !! "name" with
  | None => (trace, Some KeyError, entity)
  | Some entity_name =>
      let state_topic := Bridge._get_topic (unique_id dev) entity_name in
      let config_topic :=
        join CONFIG_MQTT_NAMESPACE
          (join "sensor" (join (dev_id dev) (join entity_name "config"))) in
      match get_generic_vals dev info entity with
      | Raise e => (trace, Some e, entity)
      | Ok (generic, entity) =>
          let payload :=
            <["value_template" :=
                PStr ("{{ value_json." +:+ entity_name +:+ " }}")]>
              (<["state_topic" := PStr state_topic]> generic) in
          (trace ++ [Publish config_topic (PJson payload) true],
           fails (length trace), entity)
      end
  end.

(** [for entity in entities] with the body [config]: the entities met
    before an exception are left as the body made them, the others as
    they were. *)
Fixpoint for_entities
    (config : gmap string string -> list event
              -> list event * option exn * gmap string string)
    (entities : list (gmap string string)) (trace : list event)
  : list event * option exn * list (gmap string string) :=
  match entities with
  | [] => (trace, None, [])
  | entity :: entities' =>
      let r := config entity trace in
      match r.1.2 with
      | Some e => (r.1.1, Some e, r.2 :: entities')
      | None =>
          let r' := for_entities config entities' r.1.1 in
          (r'.1.1, r'.1.2, r.2 :: r'.2)
      end
  end.

(** The body of [for cls, entities in device.entities.items()]: the two
    [if] in turn. *)
Definition config_class (dev : device) (info : device_info)
    (fails : nat -> option exn) (cls : string)
    (entities : list (gmap string string)) (trace : list event)
  : list event * option exn * list (gmap string string) :=
  let r :=
    if String.eqb cls "switch"
    then for_entities (config_switch dev info fails) entities trace
    else (trace, None, entities) in
  match r.1.2 with
  | Some e => r
  | None =>
      if String.eqb cls "sensor"
      then for_entities (config_sensor dev info fails) r.2 r.1.1
      else r
  end.

Fixpoint for_classes (dev : device) (info : device_info)
    (fails : nat -> option exn)
    (items : list (string * list (gmap string string)))
    (trace : list event)
  : list event * option exn * list (string * list (gmap string string)) :=
  match items with
  | [] => (trace, None, [])
  | (cls, entities) :: items' =>
      let r := config_class dev info fails cls entities trace in
      match r.1.2 with
      | Some e => (r.1.1, Some e, (cls, r.2) :: items')
      | None =>
          let r' := for_classes dev info fails items' r.1.1 in
          (r'.1.1, r'.1.2, (cls, r.2) :: r'.2)
      end
  end.

(** [send_device_config] on the entity dicts that [device.entities]
    holds, class by class in the order of the dict: the publications
    made, the exception raised, and the entity dicts as the call leaves
    them. *)
Definition send_device_config (dev : device) (fails : nat -> option exn)
    (entities : list (string * list (gmap string string)))
  : list event * option exn * list (string * list (gmap string string)) :=
  let device_info :=
    mk_info [unique_id dev] (unique_id dev) (version dev) (model dev)
      (manufacturer dev) in
  for_classes dev device_info fails entities [].

End Discovery.

(** ** Concrete inputs for the further properties *)

Module Sample2.

Definition empty_store : gmap Store.ref (list Z) := ∅.

(** A MAC address as the configuration gives it, its octets and their
    values. *)
Definition mac : string := "AA:BB:CC:DD:EE:FF".

Definition octets : list (Ascii.ascii * Ascii.ascii) :=
  let a := Ascii.ascii_of_N in
  [(a 65, a 65); (a 66, a 66); (a 67, a 67);
   (a 68, a 68); (a 69, a 69); (a 70, a 70)]%N.

Definition octet_values : list Z := [170; 187; 204; 221; 238; 255].

(** The MAC address with its octets reversed, as [reverse_mac] returns
    it. *)
Definition reversed_mac : list Z := [255; 238; 221; 204; 187; 170].

(** A device with a sensor and a switch, and its entity dicts. *)
Definition plug_device : Discovery.device :=
  Discovery.mk_device "plug1" "plug" (Some "1.0") (Some "Plug") None "set".

Definition plug_entities : list (string * list (gmap string string)) :=
  [("sensor", [<["name" := "temperature"]>
                 (<["device_class" := "temperature"]> ∅)]);
   ("switch", [<["name" := "power"]> (<["icon" := "kettle"]> ∅)])].

(** No publication fails. *)
Definition no_failure (k : nat) : option exn := None.

(** The device information [send_device_config] builds for the plug. *)
Definition plug_info : Discovery.device_info :=
  Discovery.mk_info ["plug1"] "plug1" (Some "1.0") (Some "Plug") None.

(** An entity with an icon and a unique id of its own. *)
Definition lamp : gmap string string :=
  <["name" := "lamp"]> (<["icon" := "bulb"]> (<["unique_id" := "lamp0"]> ∅)).

(** A configured token with two blanks in it. *)
Definition spaced_token : string := "015ccba8 800abdc1 2eb8ed".

(** Every awaited call of the handshake succeeds and the kettle's answer
    is [reply]. *)
Definition answered (reply : Z * list Z) : XiaomiAuth.auth_env :=
  XiaomiAuth.mk_auth_env None None None (Ok reply) None None None.

(** A store whose only object is the table 0..255. *)
Definition identity_store : gmap Store.ref (list Z) :=
  <[0%nat := Py.range 0 256]> ∅.

(** A pass of the supervisor in which the connection to the device
    fails. *)
Definition unreachable : Ble2Mqtt.cycle :=
  Ble2Mqtt.mk_cycle (Some RuntimeError) None None None None None None false
    None None None.

(** The same, the pause after the failure being cancelled. *)
Definition interrupted : Ble2Mqtt.cycle :=
  Ble2Mqtt.mk_cycle (Some RuntimeError) (Some CancelledError) None None None
    None None false None None None.



(** A connection that is established and then lost. *)
Definition lost : Ble2Mqtt.attempt :=
  Ble2Mqtt.mk_attempt None None (Some ConnectionLostError) None.

(** A connection that is lost while ['online'] is published. *)
Definition lost_early : Ble2Mqtt.attempt :=
  Ble2Mqtt.mk_attempt None (Some ConnectionLostError) None None.

(** A pass in which the call that creates the handle task is
    rejected. *)
Definition handle_rejected : Ble2Mqtt.cycle :=
  Ble2Mqtt.mk_cycle None None None None None (Some RuntimeError) None false
    None None None.

(** A connection that ends without an error. *)
Definition ended : Ble2Mqtt.attempt :=
  Ble2Mqtt.mk_attempt None None None None.

(** Tasks of the bridge at shutdown: one finished, one that ends with
    the cancellation, one that fails while it is cancelled, one more. *)
Definition finished_task : Bridge.task := Bridge.mk_task true None.
Definition running_task : Bridge.task :=
  Bridge.mk_task false (Some CancelledError).
Definition failing_task : Bridge.task :=
  Bridge.mk_task false (Some RuntimeError).

End Sample2.

(* ================================================================= *)
(** * Properties *)

(** ** Status record decoding *)

Section DecodingFacts.
Import MiKettleState.

(** ['<BBHBBBHBBB'] describes 12 bytes. *)
Lemma FORMAT_calcsize : Struct.calcsize FORMAT = 12%nat.
Proof. reflexivity. Qed.

Lemma unpack_wrong_length fmt buf :
  length buf ≠ Struct.calcsize fmt ->
  Struct.unpack fmt buf = Raise StructError.
Proof.
  intros Hlen. unfold Struct.unpack.
  destruct (Nat.eqb_spec (length buf) (Struct.calcsize fmt)); done.
Qed.

(** An enum value without a member is a [ValueError]. *)
Example from_bytes_bad_mode :
  from_bytes [4; 1; 0; 0; 100; 45; 0; 5; 0; 0; 0; 0] = Raise ValueError.
Proof. reflexivity. Qed.

(** C1, as stated, fails: the 13-byte record
    [01 01 00 00 64 2D 00 05 00 00 00 00 00] is one byte longer than the
    format and [from_bytes] raises [struct.error] on it. *)
Lemma from_bytes_record13_raises :
  length record13 = 13%nat
  /\ from_bytes record13 = Raise StructError
  /\ from_bytes record13 ≠ Ok expected.
Proof. repeat split. discriminate. Qed.

(** C1, amended: decoding the 12-byte record
    [01 01 00 00 64 2D 00 05 00 00 00 00] succeeds and yields
    mode=HEATING, led_mode=BOIL, target_temperature=100, temperature=45,
    keep_warm_type=BOIL_AND_COOLDOWN, keep_warm_time=5. *)
Theorem from_bytes_record12 :
  length record12 = 12%nat /\ from_bytes record12 = Ok expected.
Proof. split; reflexivity. Qed.

(** C6, as stated, fails: the sample record of the comment in
    [from_bytes], [00 ff 00 00 5a 28 00 00 00 01 18 00], is a byte string
    whose length is not 13, and it decodes. *)
Lemma from_bytes_length_12_decodes :
  length sample ≠ 13%nat
  /\ from_bytes sample
     = Ok (mk Mode.IDLE LEDMode.NONE 40 90 KeepWarmType.BOIL_AND_COOLDOWN 0)
  /\ ~ (forall response : list Z,
          length response ≠ 13%nat ->
          exists e, from_bytes response = Raise e).
Proof.
  split; [discriminate |]. split; [reflexivity |].
  intros H. destruct (H sample) as [e He]; [discriminate |].
  discriminate He.
Qed.

(** C6, amended: for every byte string whose length is not 12 bytes,
    [from_bytes] fails with [struct.error]; no prefix of a longer
    record is decoded and a shorter one is not padded. *)
Theorem from_bytes_wrong_length (response : list Z) :
  length response ≠ 12%nat -> from_bytes response = Raise StructError.
Proof.
  intros Hlen. unfold from_bytes.
  rewrite unpack_wrong_length by (by rewrite FORMAT_calcsize).
  reflexivity.
Qed.

(** A record cut short by one byte is refused. *)
Lemma from_bytes_wrong_length_witness :
  length record11 ≠ 12%nat /\ from_bytes record11 = Raise StructError.
Proof.
  assert (H : length record11 ≠ 12%nat) by discriminate.
  exact (conj H (from_bytes_wrong_length _ H)).
Defined.

End DecodingFacts.

(** ** The cipher *)

Section CipherFacts.
Import Store Py XiaomiCipherMixin.

Lemma land_255_byte v : is_byte (Z.land v 255).
Proof.
  change 255 with (Z.ones 8). rewrite Z.land_ones by lia.
  unfold is_byte. change 256 with (2 ^ 8). apply Z.mod_pos_bound. lia.
Qed.

Lemma land_255_id v : is_byte v -> Z.land v 255 = v.
Proof.
  intros Hv. change 255 with (Z.ones 8). rewrite Z.land_ones by lia.
  apply Z.mod_small. exact Hv.
Qed.

Lemma is_byteb_true v : is_byte v -> is_byteb v = true.
Proof. unfold is_byte, is_byteb. intros. apply andb_true_iff. lia. Qed.

Lemma byte_high_bit v n : is_byte v -> 8 <= n -> Z.testbit v n = false.
Proof.
  intros [Hlo Hhi] Hn.
  destruct (Z.eq_dec v 0) as [-> | Hne]; [apply Z.bits_0 |].
  apply Z.bits_above_log2; [lia |].
  assert (Z.log2 v < 8); [| lia].
  apply Z.log2_lt_pow2; [lia | exact Hhi].
Qed.

(** Masking the exclusive or of two bytes changes nothing, and applying
    the same keystream byte twice gives the input byte back. *)
Lemma xor_mask_cancel x k :
  is_byte x -> is_byte k ->
  Z.land (Z.lxor (Z.land (Z.lxor x k) 255) k) 255 = x.
Proof.
  intros Hx Hk.
  assert (Hm : Z.land (Z.lxor x k) 255 = Z.lxor x k).
  { apply Z.bits_inj'. intros n Hn.
    change 255 with (Z.ones 8). rewrite Z.land_spec, Z.lxor_spec.
    destruct (Z_lt_dec n 8).
    - rewrite Z.ones_spec_low by lia. apply andb_true_r.
    - rewrite Z.ones_spec_high by lia.
      rewrite !byte_high_bit by (assumption || lia). reflexivity. }
  rewrite Hm, Z.lxor_assoc, Z.lxor_nilpotent, Z.lxor_0_r.
  apply land_255_id, Hx.
Qed.

(** *** Running the primitives *)

Lemma bind_run {A B} (m : py A) (k : A -> py B) σ a σ' :
  m σ = (Ok a, σ') -> (m ≫= k) σ = k a σ'.
Proof. intros H. unfold mbind, py_bind, bind. by rewrite H. Qed.

Lemma bind_raise {A B} (m : py A) (k : A -> py B) σ e σ' :
  m σ = (Raise e, σ') -> (m ≫= k) σ = (Raise e, σ').
Proof. intros H. unfold mbind, py_bind, bind. by rewrite H. Qed.

Lemma contents_insert σ r p : contents (<[r := p]> σ) r = p.
Proof. unfold contents. by rewrite lookup_insert_eq. Qed.

Lemma index_in_range (p : list Z) i :
  0 <= i < len p -> index p i = Some (p !!! Z.to_nat i).
Proof.
  intros Hi. unfold index, len in *.
  replace (i <? 0) with false by lia.
  replace (0 <=? i) with true by lia.
  replace (i <? Z.of_nat (length p)) with true by lia. simpl.
  apply list_lookup_lookup_total_lt. lia.
Qed.

Lemma position_in_range (p : list Z) i :
  0 <= i < len p -> position p i = Some (Z.to_nat i).
Proof.
  intros Hi. unfold position, len in *.
  replace (i <? 0) with false by lia.
  replace (0 <=? i) with true by lia.
  by replace (i <? Z.of_nat (length p)) with true by lia.
Qed.

Lemma getitem_run σ r i :
  0 <= i < len (contents σ r) ->
  getitem r i σ = (Ok (contents σ r !!! Z.to_nat i), σ).
Proof. intros Hi. unfold getitem. by rewrite index_in_range. Qed.

Lemma setitem_run σ r i v :
  0 <= i < len (contents σ r) -> is_byte v ->
  setitem r i v σ = (Ok tt, <[r := <[Z.to_nat i := v]> (contents σ r)]> σ).
Proof.
  intros Hi Hv. unfold setitem.
  by rewrite position_in_range, is_byteb_true.
Qed.

(** *** The permutation table stays a table of 256 bytes *)

Lemma wf_len p : RC4.wf p -> len p = 256.
Proof. intros [Hl _]. unfold len. lia. Qed.

Lemma wf_lookup p n : RC4.wf p -> is_byte (p !!! n).
Proof.
  intros [_ Hb]. destruct (decide (n < length p)%nat) as [Hn | Hn].
  - by apply Forall_lookup_total_1.
  - rewrite list_lookup_total_alt, lookup_ge_None_2 by lia. done.
Qed.

Lemma wf_swap p i j : RC4.wf p -> RC4.wf (RC4.swap p i j).
Proof.
  intros Hp. pose proof (wf_lookup p i Hp). pose proof (wf_lookup p j Hp).
  destruct Hp as [Hl Hb]. split.
  - unfold RC4.swap. by rewrite !length_insert.
  - unfold RC4.swap, is_bytes. by repeat apply Forall_insert.
Qed.

Lemma wf_range : RC4.wf (range 0 256).
Proof.
  split; [reflexivity |].
  apply Forall_forall. intros x Hx. apply elem_of_seqZ in Hx.
  unfold is_byte. lia.
Qed.

Lemma swap_items_run σ r i j :
  RC4.wf (contents σ r) -> is_byte i -> is_byte j ->
  swap_items r i j σ
  = (Ok tt, <[r := RC4.swap (contents σ r) (Z.to_nat i) (Z.to_nat j)]> σ).
Proof.
  intros Hp Hi Hj. pose proof (wf_len _ Hp) as Hl. unfold is_byte in *.
  unfold swap_items.
  erewrite bind_run by (apply getitem_run; lia).
  erewrite bind_run by (apply getitem_run; lia).
  erewrite bind_run by (apply setitem_run; [lia | by apply wf_lookup]).
  rewrite setitem_run.
  - by rewrite contents_insert, insert_insert_eq.
  - rewrite contents_insert. unfold len in *. rewrite length_insert. lia.
  - by apply wf_lookup.
Qed.

(** *** The loops *)

Lemma lookup_contents σ r p : σ !! r = Some p -> contents σ r = p.
Proof. intros H. unfold contents. by rewrite H. Qed.

(** The first loop of [_cipher_init] appends its indices. *)
Lemma fill_loop_run r xs : forall σ p,
  σ !! r = Some p -> is_bytes xs ->
  for_each xs (fun i _ => extend r [Z.land i 255]) tt σ
  = (Ok tt, <[r := p ++ xs]> σ).
Proof.
  induction xs as [| x xs IH]; intros σ p Hr Hxs; simpl.
  - rewrite app_nil_r, insert_id by done. done.
  - apply Forall_cons in Hxs as [Hx Hxs].
    erewrite bind_run; cycle 1.
    { unfold extend. simpl. rewrite is_byteb_true by apply land_255_byte.
      simpl. rewrite (lookup_contents _ _ _ Hr), land_255_id by done.
      reflexivity. }
    erewrite IH by (by rewrite ?lookup_insert_eq).
    by rewrite insert_insert_eq, <- app_assoc.
Qed.

(** The second loop of [_cipher_init] is the key schedule. *)
Lemma ksa_loop_run key r xs : forall σ j p,
  key ≠ [] -> σ !! r = Some p -> RC4.wf p -> is_bytes xs ->
  for_each xs
    (fun i j =>
       p ← getitem r i;
       n ← lift (mod_ i (len key));
       k ← lift (bytes_getitem key n);
       let j := j + (p + k) in
       let j := Z.land j 255 in
       swap_items r i j;;
       mret j) j σ
  = (Ok (foldl (RC4.ksa_step key) (j, p) xs).1,
     <[r := (foldl (RC4.ksa_step key) (j, p) xs).2]> σ)
  /\ RC4.wf (foldl (RC4.ksa_step key) (j, p) xs).2.
Proof.
  induction xs as [| i xs IH]; intros σ j p Hk Hr Hp Hxs.
  - simpl. by rewrite insert_id.
  - apply Forall_cons in Hxs as [Hi Hxs].
    pose proof (wf_len _ Hp) as Hl.
    assert (Hkl : 0 < len key).
    { unfold len. destruct key; [done | simpl; lia]. }
    pose proof (Z.mod_pos_bound i (len key) Hkl) as Hn.
    cbn [for_each foldl].
    set (j' := Z.land (j + (p !!! Z.to_nat i
                            + key !!! Z.to_nat (i mod len key))) 255).
    assert (Hj' : is_byte j') by apply land_255_byte.
    specialize (IH (<[r := RC4.swap p (Z.to_nat i) (Z.to_nat j')]> σ) j'
                  (RC4.swap p (Z.to_nat i) (Z.to_nat j')) Hk
                  (lookup_insert_eq _ _ _) (wf_swap _ _ _ Hp) Hxs).
    destruct IH as [IH Hwf]. split; [| exact Hwf].
    rewrite insert_insert_eq in IH.
    erewrite bind_run; [exact IH |].
    erewrite bind_run; cycle 1.
    { apply getitem_run. rewrite (lookup_contents _ _ _ Hr).
      unfold is_byte in Hi. lia. }
    rewrite (lookup_contents _ _ _ Hr).
    unfold mod_. replace (len key =? 0) with false by lia.
    erewrite bind_run by reflexivity.
    unfold bytes_getitem. rewrite index_in_range by exact Hn.
    erewrite bind_run by reflexivity.
    fold j'.
    erewrite bind_run; cycle 1.
    { apply swap_items_run; [by rewrite (lookup_contents _ _ _ Hr) | done..]. }
    by rewrite (lookup_contents _ _ _ Hr).
Qed.

(** The loop of [_cipher_crypt] is the generator, one round per input
    byte, each output byte appended to [output]. *)
Lemma crypt_loop_run input r idxs xs :
  Forall2 (fun i x => bytes_getitem input i = Ok x) idxs xs ->
  forall σ s out,
  σ !! r = Some (RC4.table s) -> RC4.wf (RC4.table s) ->
  for_each idxs
    (fun i '(mk_vars index1 index2 output) =>
       let index1 := index1 + 1 in
       let index1 := Z.land index1 255 in
       p ← getitem r index1;
       let index2 := index2 + p in
       let index2 := Z.land index2 255 in
       swap_items r index1 index2;;
       a ← getitem r index1;
       b ← getitem r index2;
       let idx := a + b in
       let idx := Z.land idx 255 in
       x ← lift (bytes_getitem input i);
       y ← getitem r idx;
       let output_byte := Z.lxor x y in
       extended ← lift (bytes_extend output [Z.land output_byte 255]);
       mret (mk_vars index1 index2 extended))
    (mk_vars (RC4.i1 s) (RC4.i2 s) out) σ
  = (Ok (mk_vars (RC4.i1 (RC4.crypt xs s).2) (RC4.i2 (RC4.crypt xs s).2)
           (out ++ (RC4.crypt xs s).1)),
     <[r := RC4.table (RC4.crypt xs s).2]> σ)
  /\ RC4.wf (RC4.table (RC4.crypt xs s).2).
Proof.
  induction 1 as [| i x idxs xs Hix _ IH]; intros σ s out Hr Hp.
  - simpl. by rewrite app_nil_r, insert_id.
  - pose proof (wf_len _ Hp) as Hl.
    cbn [for_each RC4.crypt fst snd].
    destruct (RC4.prga_step s) as [s' k] eqn:Hstep.
    unfold RC4.prga_step in Hstep.
    set (a := Z.land (RC4.i1 s + 1) 255) in *.
    set (b := Z.land (RC4.i2 s + RC4.table s !!! Z.to_nat a) 255) in *.
    set (q := RC4.swap (RC4.table s) (Z.to_nat a) (Z.to_nat b)) in *.
    set (idx := Z.land (q !!! Z.to_nat a + q !!! Z.to_nat b) 255) in *.
    assert (Ha : is_byte a) by apply land_255_byte.
    assert (Hb : is_byte b) by apply land_255_byte.
    assert (Hidx : is_byte idx) by apply land_255_byte.
    assert (Hq : RC4.wf q) by by apply wf_swap.
    pose proof (wf_len _ Hq) as Hlq.
    injection Hstep as <- <-. cbn [fst snd].
    specialize (IH (<[r := q]> σ) (RC4.mk_state a b q)
                  (out ++ [Z.land (Z.lxor x (q !!! Z.to_nat idx)) 255])
                  (lookup_insert_eq _ _ _) Hq).
    destruct IH as [IH Hwf]. split; [| exact Hwf].
    rewrite insert_insert_eq, <- app_assoc in IH. cbn [RC4.i1 RC4.i2] in IH.
    erewrite bind_run; [exact IH |].
    unfold is_byte in *.
    erewrite bind_run; cycle 1.
    { apply getitem_run. rewrite (lookup_contents _ _ _ Hr). lia. }
    rewrite (lookup_contents _ _ _ Hr). fold a. fold b.
    erewrite bind_run; cycle 1.
    { apply swap_items_run; [by rewrite (lookup_contents _ _ _ Hr) | done..]. }
    rewrite (lookup_contents _ _ _ Hr). fold q.
    erewrite bind_run; cycle 1.
    { apply getitem_run. rewrite contents_insert. lia. }
    erewrite bind_run; cycle 1.
    { apply getitem_run. rewrite contents_insert. lia. }
    rewrite contents_insert. fold idx. rewrite Hix.
    erewrite bind_run by reflexivity.
    erewrite bind_run; cycle 1.
    { apply getitem_run. rewrite contents_insert. lia. }
    rewrite contents_insert.
    unfold bytes_extend. simpl forallb.
    rewrite is_byteb_true by apply land_255_byte. simpl.
    erewrite bind_run by reflexivity. reflexivity.
Qed.

Lemma range_getitem input :
  Forall2 (fun i x => bytes_getitem input i = Ok x)
    (range 0 (len input)) input.
Proof.
  apply Forall2_same_length_lookup_2.
  - unfold range, len. rewrite length_seqZ. lia.
  - intros n i x Hi Hx. apply lookup_seqZ in Hi as [-> Hn].
    unfold bytes_getitem. rewrite index_in_range by (unfold len in *; lia).
    replace (Z.to_nat (0 + Z.of_nat n)) with n by lia.
    by rewrite (list_lookup_total_correct _ _ _ Hx).
Qed.

(** [_cipher_init] allocates one new table and leaves the key schedule
    of [key] in it. *)
Lemma cipher_init_run key σ :
  key ≠ [] ->
  _cipher_init key σ = (Ok (fresh (dom σ)), <[fresh (dom σ) := RC4.ksa key]> σ)
  /\ RC4.wf (RC4.ksa key).
Proof.
  intros Hk. unfold _cipher_init, RC4.ksa.
  set (r := fresh (dom σ)).
  destruct (ksa_loop_run key r (range 0 256) (<[r := range 0 256]> σ) 0
              (range 0 256) Hk (lookup_insert_eq _ _ _) wf_range
              (proj2 wf_range)) as [Hrun Hwf].
  split; [| exact Hwf].
  erewrite bind_run by reflexivity. fold r.
  erewrite bind_run; cycle 1.
  { apply (fill_loop_run r (range 0 256) _ []);
      [apply lookup_insert_eq | apply wf_range]. }
  rewrite insert_insert_eq, app_nil_l.
  erewrite bind_run by exact Hrun.
  by rewrite insert_insert_eq.
Qed.

(** [cipher] in any store: the result is the generator run on the key
    schedule, the store gains the used table and is otherwise unchanged. *)
Lemma cipher_run key input σ :
  key ≠ [] ->
  cipher key input σ
  = (Ok (RC4.crypt input (RC4.mk_state 0 0 (RC4.ksa key))).1,
     <[fresh (dom σ) :=
         RC4.table (RC4.crypt input (RC4.mk_state 0 0 (RC4.ksa key))).2]> σ).
Proof.
  intros Hk. destruct (cipher_init_run key σ Hk) as [Hinit Hwf].
  unfold cipher. erewrite bind_run by exact Hinit.
  unfold _cipher_crypt.
  destruct (crypt_loop_run input (fresh (dom σ)) _ _ (range_getitem input)
              (<[fresh (dom σ) := RC4.ksa key]> σ)
              (RC4.mk_state 0 0 (RC4.ksa key)) []
              (lookup_insert_eq _ _ _) Hwf) as [Hrun _].
  cbn [RC4.i1 RC4.i2] in Hrun.
  erewrite bind_run by exact Hrun.
  by rewrite insert_insert_eq.
Qed.

(** *** The generator on lists *)

Lemma crypt_length input : forall s,
  length (RC4.crypt input s).1 = length input.
Proof. induction input as [| x input IH]; intros s; simpl; [done | by rewrite IH]. Qed.

Lemma prga_step_wf s : RC4.wf (RC4.table s) ->
  RC4.wf (RC4.table (RC4.prga_step s).1) /\ is_byte (RC4.prga_step s).2.
Proof.
  intros Hp. unfold RC4.prga_step. cbn [fst snd RC4.table].
  split; [by apply wf_swap | by apply wf_lookup, wf_swap].
Qed.

(** The keystream and the successive states do not depend on the input. *)
Lemma crypt_state_indep input1 : forall input2 s,
  length input1 = length input2 ->
  (RC4.crypt input1 s).2 = (RC4.crypt input2 s).2.
Proof.
  induction input1 as [| x xs IH]; intros [| y ys] s Hlen; try done.
  simpl. apply IH. by injection Hlen.
Qed.

Lemma crypt_involutive input : forall s,
  RC4.wf (RC4.table s) -> is_bytes input ->
  (RC4.crypt (RC4.crypt input s).1 s).1 = input.
Proof.
  induction input as [| x input IH]; intros s Hp Hin; [done |].
  apply Forall_cons in Hin as [Hx Hin].
  destruct (prga_step_wf s Hp) as [Hp' Hk].
  simpl. f_equal; [by apply xor_mask_cancel | by apply IH].
Qed.

(** The table is used up: a second [_cipher_crypt] on a table that a
    first one has advanced does not produce the keystream of the key
    again, whereas a second [cipher] call does. *)
Example crypt_consumes_table :
  ((perm ← _cipher_init [75; 101; 121];
    first ← _cipher_crypt [0; 0; 0] perm;
    second ← _cipher_crypt [0; 0; 0] perm;
    again ← cipher [75; 101; 121] [0; 0; 0];
    mret (first, second, again)) ∅).1
  = Ok ([235; 159; 119], [85; 167; 48], [235; 159; 119]).
Proof. vm_compute. reflexivity. Qed.

(** The standard test vector of the cipher family: key "Key", message
    "Plaintext". *)
Example cipher_test_vector :
  (cipher [75; 101; 121] [80; 108; 97; 105; 110; 116; 101; 120; 116] ∅).1
  = Ok [187; 243; 22; 232; 217; 64; 175; 10; 211].
Proof. vm_compute. reflexivity. Qed.

(** Without a key the key schedule divides by zero. *)
Lemma cipher_empty_key input σ :
  (cipher [] input σ).1 = Raise ZeroDivisionError.
Proof.
  unfold cipher. erewrite bind_raise; [reflexivity |].
  unfold _cipher_init.
  erewrite bind_run by reflexivity.
  erewrite bind_run; cycle 1.
  { apply (fill_loop_run _ (range 0 256) _ []);
      [apply lookup_insert_eq | apply wf_range]. }
  rewrite insert_insert_eq, app_nil_l.
  erewrite bind_raise; [reflexivity |].
  change (range 0 256) with (0 :: range 1 256) at 1. cbn [for_each].
  erewrite bind_raise; [reflexivity |].
  erewrite bind_run; cycle 1.
  { apply getitem_run. by rewrite contents_insert. }
  reflexivity.
Qed.

(** C2. For every non-empty key [K] and every byte string [M],
    [cipher(K, cipher(K, M)) == M]: the inner call returns a byte string
    and the outer call, which runs its own key schedule in the store the
    inner call left behind, returns [M]. *)
Theorem cipher_round_trip (K M : list Z) σ :
  K ≠ [] -> is_bytes M ->
  ((C ← cipher K M; cipher K C) σ).1 = Ok M.
Proof.
  intros HK HM.
  erewrite bind_run by (by apply cipher_run).
  rewrite cipher_run by done. cbn [fst].
  f_equal. apply crypt_involutive; [| done].
  apply (cipher_init_run K σ HK).
Qed.

(** The second message of the handshake, under the default token. *)
Lemma cipher_round_trip_witness :
  generate_random_token ≠ [] /\ is_bytes AUTH_MAGIC2 /\
  ((C ← cipher generate_random_token AUTH_MAGIC2;
    cipher generate_random_token C) ∅).1 = Ok AUTH_MAGIC2.
Proof.
  assert (H1 : generate_random_token ≠ []) by discriminate.
  assert (H2 : is_bytes AUTH_MAGIC2)
    by (repeat constructor; unfold is_byte; lia).
  exact (conj H1 (conj H2 (cipher_round_trip _ _ ∅ H1 H2))).
Defined.

(** C10. For every non-empty key [K] and every input [D], in every store
    [cipher(K, D)] returns a byte string as long as [D]; the result is the
    same whatever the store holds when the call starts, in particular
    after earlier calls have used up their tables, and the objects
    already in the store are left as they were: the table
    [_cipher_crypt] consumes is the one its own call has just built. *)
Theorem cipher_length_and_purity (K D : list Z) :
  K ≠ [] ->
  (forall σ, exists out,
      (cipher K D σ).1 = Ok out /\ length out = length D /\ is_bytes out)
  /\ (forall σ1 σ2, (cipher K D σ1).1 = (cipher K D σ2).1)
  /\ (forall σ r, is_Some (σ !! r) -> (cipher K D σ).2 !! r = σ !! r).
Proof.
  intros HK. split; [| split].
  - intros σ. rewrite cipher_run by done. cbn [fst].
    eexists. split; [reflexivity |]. split; [apply crypt_length |].
    generalize (RC4.mk_state 0 0 (RC4.ksa K)).
    induction D as [| x D IH]; intros s; simpl; [constructor |].
    constructor; [apply land_255_byte | apply IH].
  - intros σ1 σ2. by rewrite !cipher_run.
  - intros σ r Hr. rewrite cipher_run by done. cbn [snd].
    apply lookup_insert_ne. intros Heq. subst r.
    by apply (is_fresh (dom σ)), elem_of_dom.
Qed.

(** The same message: four bytes in, four bytes out, from any store. *)
Lemma cipher_length_and_purity_witness :
  generate_random_token ≠ [] /\
  (forall σ, exists out,
      (cipher generate_random_token AUTH_MAGIC2 σ).1 = Ok out
      /\ length out = length AUTH_MAGIC2 /\ is_bytes out).
Proof.
  assert (H1 : generate_random_token ≠ []) by discriminate.
  exact (conj H1 (proj1 (cipher_length_and_purity _ AUTH_MAGIC2 H1))).
Defined.

End CipherFacts.

(** ** The kettle's publishing loop *)

Section HandleFacts.
Import XiaomiKettle.
Context {V : Type}.
Implicit Types (dev : device (V:=V)) (tk : tick).
Implicit Types (send_time : option float).

(** With the kettle's entities, [_notify_state] publishes the
    temperature and the link quality to the state topic. *)
Lemma notify_state_run dev st :
  _notify_state dev st
  = [LogInfo;
     Publish (unique_id dev +:+ "/state")
       [("temperature", transform_value dev (MiKettleState.temperature st));
        ("linkquality", linkquality dev)]].
Proof. reflexivity. Qed.

Lemma handle_iteration_absent dev send_time tk :
  state_now tk = None ->
  handle_iteration dev send_time tk
  = ([UpdateDeviceData; Sleep ACTIVE_SLEEP_INTERVAL], send_time).
Proof. intros H. unfold handle_iteration. by rewrite H. Qed.

Lemma handle_loop_absent dev ticks : forall send_time,
  Forall (fun tk => state_now tk = None) ticks ->
  handle_loop dev send_time ticks
  = concat (replicate (length ticks)
              [UpdateDeviceData; Sleep ACTIVE_SLEEP_INTERVAL]).
Proof.
  induction ticks as [| tk ticks IH]; intros send_time Hall; [done |].
  apply Forall_cons in Hall as [Htk Hall].
  cbn [handle_loop]. rewrite handle_iteration_absent by done.
  cbn [fst snd length replicate concat]. by rewrite IH.
Qed.

(** C8. For every number of consecutive iterations of the handle loop
    in which the kettle's state is still [None], that is before the
    first status notification, no iteration publishes anything, so
    nothing is published to the state topic: each iteration only
    updates the device data and sleeps. *)
Theorem no_publish_while_state_absent dev (ticks : list tick) :
  Forall (fun tk => state_now tk = None) ticks ->
  forall topic value, Publish topic value ∉ handle dev ticks.
Proof.
  intros Hall topic value. unfold handle.
  rewrite handle_loop_absent by done.
  induction (length ticks) as [| n IH]; simpl.
  - apply not_elem_of_nil.
  - intros Hin. apply elem_of_cons in Hin as [Hin | Hin]; [done |].
    apply elem_of_cons in Hin as [Hin | Hin]; [done | by apply IH].
Qed.

(** Whether an iteration publishes. *)
Lemma handle_iteration_cases dev send_time tk :
  (exists st, state_now tk = Some st
     /\ (negb (truthy send_time)
         || interval_passed send_time (clock_check tk)) = true
     /\ handle_iteration dev send_time tk
        = ([UpdateDeviceData; LogInfo;
            Publish (unique_id dev +:+ "/state")
              [("temperature",
                transform_value dev (MiKettleState.temperature st));
               ("linkquality", linkquality dev)];
            Sleep ACTIVE_SLEEP_INTERVAL],
           Some (clock_record tk)))
  \/ ((state_now tk = None
       \/ (negb (truthy send_time)
           || interval_passed send_time (clock_check tk)) = false)
      /\ handle_iteration dev send_time tk
         = ([UpdateDeviceData; Sleep ACTIVE_SLEEP_INTERVAL], send_time)).
Proof.
  unfold handle_iteration.
  destruct (state_now tk) as [st |]; [| right; auto].
  destruct (negb (truthy send_time)
            || interval_passed send_time (clock_check tk)) eqn:Hc.
  - left. exists st. by rewrite notify_state_run.
  - right. auto.
Qed.

(** The condition of the loop. *)
Lemma publish_condition send_time now :
  (negb (truthy send_time) || interval_passed send_time now) = true
  <-> send_time = None
      \/ exists t, send_time = Some t
                   /\ (PrimFloat.eqb t 0%float = true
                       \/ PrimFloat.ltb (float_of_int SEND_INTERVAL)
                            (PrimFloat.sub now t) = true).
Proof.
  destruct send_time as [t |]; cbn [truthy interval_passed negb orb];
    [| by intuition eauto].
  rewrite negb_involutive, orb_true_iff. split.
  - intros H. right. by exists t.
  - intros [| (t' & [= <-] & H)]; done.
Qed.

(** C9, amended: in an iteration of the handle loop a state publish
    occurs if and only if the state is present and either no publish
    time is recorded ([send_time] is [None] or a zero) or the difference
    [time.time() - send_time], as binary64 arithmetic computes it, is
    strictly greater than 30; when it occurs, the object with the
    transformed temperature and the link quality is published to
    [<unique id>/state] and the clock reading taken just before is
    recorded as the publish time; otherwise the recorded time is
    unchanged. *)
Theorem handle_iteration_publishes dev send_time tk :
  let r := handle_iteration dev send_time tk in
  let due :=
    send_time = None
    \/ exists t, send_time = Some t
                 /\ (PrimFloat.eqb t 0%float = true
                     \/ PrimFloat.ltb (float_of_int SEND_INTERVAL)
                          (PrimFloat.sub (clock_check tk) t) = true) in
  ((exists topic value, Publish topic value ∈ r.1)
   <-> (exists st, state_now tk = Some st) /\ due)
  /\ (forall st, state_now tk = Some st -> due ->
      r = ([UpdateDeviceData; LogInfo;
            Publish (unique_id dev +:+ "/state")
              [("temperature",
                transform_value dev (MiKettleState.temperature st));
               ("linkquality", linkquality dev)];
            Sleep ACTIVE_SLEEP_INTERVAL],
           Some (clock_record tk)))
  /\ ((forall topic value, Publish topic value ∉ r.1) -> r.2 = send_time).
Proof.
  intros r due. subst r due.
  pose proof (publish_condition send_time (clock_check tk)) as Hcond.
  destruct (handle_iteration_cases dev send_time tk)
    as [(st & Hst & Hc & ->) | [Hno ->]]; cbn [fst snd].
  - split; [| split].
    + split; [intros _; split; [by eexists | by apply Hcond] |].
      intros _. do 2 eexists. do 2 right. left.
    + intros st' Hst' _. congruence.
    + intros Hnone. exfalso. eapply Hnone. do 2 right. left.
  - split; [| split].
    + split.
      * intros (topic & value & Hin).
        apply elem_of_cons in Hin as [Hin | Hin]; [done |].
        apply elem_of_cons in Hin as [Hin | Hin]; [done |].
        by apply elem_of_nil in Hin.
      * intros [[st Hst] Hdue]. apply Hcond in Hdue.
        destruct Hno as [Hno | Hno]; congruence.
    + intros st Hst Hdue. apply Hcond in Hdue.
      destruct Hno as [Hno | Hno]; congruence.
    + done.
Qed.

End HandleFacts.

(** Three iterations without a state publish nothing. *)
Lemma no_publish_while_state_absent_witness :
  Forall (fun tk => XiaomiKettle.state_now tk = None) Sample.idle_ticks
  /\ forall topic value,
      XiaomiKettle.Publish topic value
      ∉ XiaomiKettle.handle Sample.kettle Sample.idle_ticks.
Proof.
  assert (H : Forall (fun tk => XiaomiKettle.state_now tk = None)
                Sample.idle_ticks)
    by (repeat constructor).
  exact (conj H (no_publish_while_state_absent Sample.kettle _ H)).
Defined.

(** C9, as stated, fails: with the state present and exactly 30 seconds
    elapsed since the last publish, the iteration publishes nothing. *)
Lemma handle_iteration_at_30_seconds :
  XiaomiKettle.state_now Sample.tick_at_30s = Some MiKettleState.expected
  /\ XiaomiKettle.clock_check Sample.tick_at_30s = 1700000030%float
  /\ Sample.last_publish = 1700000000%float
  /\ XiaomiKettle.handle_iteration Sample.kettle (Some Sample.last_publish)
       Sample.tick_at_30s
     = ([XiaomiKettle.UpdateDeviceData; XiaomiKettle.Sleep 1],
        Some Sample.last_publish).
Proof. repeat split. Qed.

(** The interval the difference is compared with. *)
Example send_interval_as_float :
  XiaomiKettle.float_of_int XiaomiKettle.SEND_INTERVAL = 30%float.
Proof. reflexivity. Qed.

(** Half a second later the state is published. *)
Example handle_iteration_after_30_seconds :
  XiaomiKettle.handle_iteration Sample.kettle (Some Sample.last_publish)
    Sample.tick_after_30s
  = ([XiaomiKettle.UpdateDeviceData; XiaomiKettle.LogInfo;
      XiaomiKettle.Publish "mikettle_aabbccddeeff/state"
        [("temperature", 45); ("linkquality", 60)];
      XiaomiKettle.Sleep 1],
     Some 1700000031%float).
Proof. reflexivity. Qed.

(** Readings more than 30 s apart whose binary64 difference is 30.0:
    nothing is published. *)
Example handle_iteration_rounded_difference :
  PrimFloat.sub (XiaomiKettle.clock_check Sample.tick_rounding)
    Sample.early_publish = 30%float
  /\ XiaomiKettle.handle_iteration Sample.kettle (Some Sample.early_publish)
       Sample.tick_rounding
     = ([XiaomiKettle.UpdateDeviceData; XiaomiKettle.Sleep 1],
        Some Sample.early_publish).
Proof. split; reflexivity. Qed.

(** ** The dispatch loop *)

Section DispatchFacts.
Import Ble2Mqtt.
Context {J : Type} (json_loads : string -> option J).
Implicit Types (reg : list Device.t) (msg : message) (env : answers).

Lemma contains_elem_of xs x : contains xs x = true <-> x ∈ xs.
Proof.
  unfold contains. rewrite existsb_exists, list_elem_of_In. split.
  - intros (y & Hy & Heq). apply String.eqb_eq in Heq. by subst.
  - intros Hin. exists x. split; [done | apply String.eqb_refl].
Qed.

Lemma contains_false xs x : contains xs x = false <-> x ∉ xs.
Proof.
  rewrite <- contains_elem_of. by destruct (contains xs x).
Qed.

Lemma removeprefix_join t :
  removeprefix (join TOPIC_ROOT t) (TOPIC_ROOT +:+ "/") = t.
Proof. reflexivity. Qed.

Lemma elem_of_subscribed_topics reg x :
  x ∈ subscribed_topics reg
  <-> exists d t, d ∈ reg /\ t ∈ Device.subscribed_topics d
                  /\ x = join TOPIC_ROOT t.
Proof.
  unfold subscribed_topics. rewrite list_elem_of_bind. split.
  - intros (d & Hx & Hd). apply list_elem_of_bind in Hx as (t & Hx & Ht).
    apply list_elem_of_singleton in Hx. by exists d, t.
  - intros (d & t & Hd & Ht & ->). exists d. split; [| done].
    apply list_elem_of_bind. exists t. split; [| done].
    by apply list_elem_of_singleton.
Qed.

(** A topic of the bridge's list always has an owner: the error of the
    [else] branch of the [for] cannot be reached. *)
Lemma subscribed_topic_has_owner reg x :
  x ∈ subscribed_topics reg ->
  exists d,
    find (fun _device =>
            contains (Device.subscribed_topics _device)
              (removeprefix x (TOPIC_ROOT +:+ "/"))) reg = Some d.
Proof.
  intros (d & t & Hd & Ht & ->)%elem_of_subscribed_topics.
  rewrite removeprefix_join.
  destruct (find _ reg) as [d' |] eqn:Hfind; [by exists d' |].
  apply list_elem_of_In in Hd.
  apply (find_none _ _ Hfind d) in Hd. apply contains_false in Hd. done.
Qed.

(** A message whose stripped topic no device has is stopped by the
    first test of the inner loop, in every pass. *)
Lemma examine_unsubscribed reg env msg :
  (forall d, d ∈ reg ->
     contains (Device.subscribed_topics d)
       (removeprefix (topic_name msg) (TOPIC_ROOT +:+ "/")) = false) ->
  forall fuel pass,
    examine json_loads fuel reg env pass msg = ([], Running).
Proof.
  intros Hnone.
  assert (Hsub : contains (subscribed_topics reg) (topic_name msg) = false).
  { apply contains_false. intros Hin.
    destruct (subscribed_topic_has_owner _ _ Hin) as [d Hfind].
    apply find_some in Hfind as [Hd Hc]. apply list_elem_of_In in Hd.
    rewrite (Hnone d Hd) in Hc. done. }
  induction fuel as [| fuel IH]; intros pass; [done |].
  cbn [examine]. rewrite Hsub. apply IH.
Qed.




(** C5. The code departs from the claim: for an inbound message whose
    stripped topic is in no registered device's [subscribed_topics],
    nothing is raised. The first test of the inner loop sends every
    pass back to the start of the loop, so the [raise] of the device
    lookup is never reached, [process_topic] is not invoked, and neither
    the pause nor the messages delivered after it are ever reached. *)
Theorem unknown_topic_spins reg env msg delivered (fuel : nat) :
  (forall d, d ∈ reg ->
     contains (Device.subscribed_topics d)
       (removeprefix (topic_name msg) (TOPIC_ROOT +:+ "/")) = false) ->
  (forall pass, examine json_loads fuel reg env pass msg = ([], Running))
  /\ _handle_messages json_loads fuel reg ((msg, env) :: delivered)
     = ([], Running).
Proof.
  intros Hnone.
  pose proof (examine_unsubscribed reg env msg Hnone fuel) as Hex.
  split; [exact Hex |].
  cbn [_handle_messages]. by rewrite Hex.
Qed.

End DispatchFacts.



(** A payload that is neither JSON nor UTF-8: the decoding raises and
    the dispatch loop ends before [process_topic]. *)
Example garbled_payload_raises :
  Ble2Mqtt._handle_messages Sample.no_json 2 [Sample.plug]
    [(Sample.garbled, Sample.online); (Sample.command, Sample.online)]
  = ([Ble2Mqtt.IsConnected "plug1"], Ble2Mqtt.Raised ValueError).
Proof. reflexivity. Qed.

(** A stray message holds up the command delivered after it. *)
Lemma unknown_topic_spins_witness :
  (forall d, d ∈ [Sample.plug] ->
     Ble2Mqtt.contains (Device.subscribed_topics d)
       (Ble2Mqtt.removeprefix (Ble2Mqtt.topic_name Sample.stray)
          (Ble2Mqtt.TOPIC_ROOT +:+ "/")) = false)
  /\ Ble2Mqtt._handle_messages Sample.no_json 5 [Sample.plug]
       [(Sample.stray, Sample.online); (Sample.command, Sample.online)]
     = ([], Ble2Mqtt.Running).
Proof.
  assert (H : forall d, d ∈ [Sample.plug] ->
     Ble2Mqtt.contains (Device.subscribed_topics d)
       (Ble2Mqtt.removeprefix (Ble2Mqtt.topic_name Sample.stray)
          (Ble2Mqtt.TOPIC_ROOT +:+ "/")) = false).
  { intros d Hd. apply list_elem_of_singleton in Hd. by subst d. }
  exact (conj H (proj2 (unknown_topic_spins Sample.no_json
                          [Sample.plug] Sample.online Sample.stray
                          [(Sample.command, Sample.online)] 5 H))).
Defined.

(** ** The device supervisor *)

Section SupervisorFacts.
Import Ble2Mqtt.
Context {J : Type}.
Implicit Types (device : Device.t) (c : cycle).



End SupervisorFacts.



(** ** The connection loop *)

Section ConnectionFacts.
Import Ble2Mqtt.
Context {J : Type}.

(** C3. The code departs from the claim: when the connection attempt
    fails with an access-refused error, the error is logged and the
    connection loop does not exit; it goes on, without a pause, to the
    next pass, whose first step is another connection attempt. *)
Theorem access_refused_is_retried (reg : list Device.t) (interval : Z)
    (online reason offline : option exn) (attempts : list attempt) :
  _connect_forever (J:=J) reg interval
    (mk_attempt (Some AccessRefusedError) online reason offline :: attempts)
  = ([Connect; LogError "Access refused"]
       ++ (_connect_forever (J:=J) reg interval attempts).1,
     (_connect_forever (J:=J) reg interval attempts).2).
Proof. reflexivity. Qed.

(** The sibling clause for a forced close returns. *)
Lemma close_forced_returns (reg : list Device.t) (interval : Z)
    (online reason offline : option exn) (attempts : list attempt) :
  _connect_forever (J:=J) reg interval
    (mk_attempt (Some ConnectionCloseForcedError) online reason offline
       :: attempts)
  = ([Connect; LogError "Connection close forced"], Returned).
Proof. reflexivity. Qed.

End ConnectionFacts.

(** Two refusals in a row: three connection attempts are made. *)
Example access_refused_twice :
  Ble2Mqtt._connect_forever (J:=Empty_set) [Sample.plug] 10
    [Sample.refused; Sample.refused; Sample.forced]
  = ([Ble2Mqtt.Connect; Ble2Mqtt.LogError "Access refused";
      Ble2Mqtt.Connect; Ble2Mqtt.LogError "Access refused";
      Ble2Mqtt.Connect; Ble2Mqtt.LogError "Connection close forced"],
     Ble2Mqtt.Returned).
Proof. reflexivity. Qed.

(* ================================================================= *)
(** * Further properties of the cipher *)

Section CipherMore.
Import Store Py XiaomiCipherMixin.

(** The exclusive or of two bytes is a byte, so masking it changes
    nothing. *)
Lemma lxor_mask_id x k :
  is_byte x -> is_byte k -> Z.land (Z.lxor x k) 255 = Z.lxor x k.
Proof.
  intros Hx Hk. apply Z.bits_inj'. intros n Hn.
  change 255 with (Z.ones 8). rewrite Z.land_spec, Z.lxor_spec.
  destruct (Z_lt_dec n 8).
  - rewrite Z.ones_spec_low by lia. apply andb_true_r.
  - rewrite Z.ones_spec_high by lia.
    rewrite !byte_high_bit by (assumption || lia). reflexivity.
Qed.

Lemma lxor_byte x k : is_byte x -> is_byte k -> is_byte (Z.lxor x k).
Proof.
  intros Hx Hk. rewrite <- lxor_mask_id by done. apply land_255_byte.
Qed.

(** The generator's output is the input combined byte by byte with the
    output for zeros. *)
Lemma crypt_zip_keystream input : forall s,
  RC4.wf (RC4.table s) -> is_bytes input ->
  (RC4.crypt input s).1
  = zip_with Z.lxor input (RC4.crypt (replicate (length input) 0) s).1.
Proof.
  induction input as [| x input IH]; intros s Hp Hin; [done |].
  apply Forall_cons in Hin as [Hx Hin].
  destruct (prga_step_wf s Hp) as [Hp' Hk].
  cbn [RC4.crypt length replicate fst zip_with]. f_equal.
  - rewrite Z.lxor_0_l, (land_255_id (RC4.prga_step s).2) by done.
    by apply lxor_mask_id.
  - by apply IH.
Qed.

Lemma crypt_bytes input : forall s, is_bytes (RC4.crypt input s).1.
Proof.
  induction input as [| x input IH]; intros s; simpl; [constructor |].
  constructor; [apply land_255_byte | apply IH].
Qed.

Lemma crypt_app input1 input2 : forall s,
  (RC4.crypt (input1 ++ input2) s).1
  = (RC4.crypt input1 s).1 ++ (RC4.crypt input2 (RC4.crypt input1 s).2).1.
Proof.
  induction input1 as [| x input1 IH]; intros s; [done |].
  cbn [app RC4.crypt fst snd]. by rewrite IH.
Qed.

(** X1. For a non-empty key, the ciphertext of a byte string [M] is [M]
    combined by exclusive or, byte by byte, with the ciphertext of the
    all-zero message of the same length: the keystream depends on the key
    and the length only, not on the message or on the store. *)
Theorem cipher_xor_keystream (K M : list Z) σ σ' :
  K ≠ [] -> is_bytes M ->
  exists ks,
    (cipher K (replicate (length M) 0) σ').1 = Ok ks
    /\ length ks = length M
    /\ (cipher K M σ).1 = Ok (zip_with Z.lxor M ks).
Proof.
  intros HK HM. rewrite !cipher_run by done. cbn [fst].
  eexists. split; [reflexivity |]. split.
  - by rewrite crypt_length, length_replicate.
  - f_equal. apply crypt_zip_keystream; [| done].
    apply (cipher_init_run K σ HK).
Qed.

(** The second message of the handshake is the token's keystream
    applied to [AUTH_MAGIC2]. *)
Lemma cipher_xor_keystream_witness :
  generate_random_token ≠ [] /\ is_bytes AUTH_MAGIC2
  /\ exists ks,
      (cipher generate_random_token (replicate (length AUTH_MAGIC2) 0) ∅).1
      = Ok ks
      /\ length ks = length AUTH_MAGIC2
      /\ (cipher generate_random_token AUTH_MAGIC2 ∅).1
         = Ok (zip_with Z.lxor AUTH_MAGIC2 ks).
Proof.
  assert (H1 : generate_random_token ≠ []) by discriminate.
  assert (H2 : is_bytes AUTH_MAGIC2)
    by (repeat constructor; unfold is_byte; lia).
  exact (conj H1 (conj H2 (cipher_xor_keystream _ _ ∅ ∅ H1 H2))).
Defined.

(** Two byte strings of the same length enciphered under the same
    non-empty key: the exclusive or of the two ciphertexts is the
    exclusive or of the two plaintexts, because every call restarts the
    same keystream. *)
Theorem cipher_same_key_leaks_xor (K A B : list Z) σ σ' :
  K ≠ [] -> is_bytes A -> is_bytes B -> length A = length B ->
  exists ca cb,
    (cipher K A σ).1 = Ok ca /\ (cipher K B σ').1 = Ok cb
    /\ zip_with Z.lxor ca cb = zip_with Z.lxor A B.
Proof.
  intros HK HA HB Hlen. rewrite !cipher_run by done. cbn [fst].
  do 2 eexists. split; [reflexivity |]. split; [reflexivity |].
  pose proof (proj2 (cipher_init_run K σ HK)) as Hwf.
  rewrite (crypt_zip_keystream A), (crypt_zip_keystream B) by done.
  rewrite <- Hlen.
  pose proof (crypt_bytes (replicate (length A) 0)
                (RC4.mk_state 0 0 (RC4.ksa K))) as Hks.
  pose proof (crypt_length (replicate (length A) 0)
                (RC4.mk_state 0 0 (RC4.ksa K))) as Hkl.
  rewrite length_replicate in Hkl.
  revert Hks Hkl Hlen.
  generalize (RC4.crypt (replicate (length A) 0)
                (RC4.mk_state 0 0 (RC4.ksa K))).1 as ks.
  clear. revert B. induction A as [| a A IH]; intros [| b B] ks Hks Hkl Hlen;
    try done.
  destruct ks as [| k ks]; [done |]. simpl in *.
  apply Forall_cons in Hks as [_ Hks]. f_equal.
  - rewrite (Z.lxor_comm b k), Z.lxor_assoc, <- (Z.lxor_assoc k k b).
    by rewrite Z.lxor_nilpotent, Z.lxor_0_l.
  - apply IH; [done | lia | lia].
Qed.

(** The two messages of the handshake's length under one key. *)
Lemma cipher_same_key_leaks_xor_witness :
  generate_random_token ≠ [] /\ is_bytes AUTH_MAGIC2 /\ is_bytes [1; 2; 3; 4]
  /\ exists ca cb,
      (cipher generate_random_token AUTH_MAGIC2 ∅).1 = Ok ca
      /\ (cipher generate_random_token [1; 2; 3; 4] ∅).1 = Ok cb
      /\ zip_with Z.lxor ca cb = zip_with Z.lxor AUTH_MAGIC2 [1; 2; 3; 4].
Proof.
  assert (H1 : generate_random_token ≠ []) by discriminate.
  assert (H2 : is_bytes AUTH_MAGIC2)
    by (repeat constructor; unfold is_byte; lia).
  assert (H3 : is_bytes [1; 2; 3; 4])
    by (repeat constructor; unfold is_byte; lia).
  exact (conj H1 (conj H2 (conj H3
           (cipher_same_key_leaks_xor _ _ _ ∅ ∅ H1 H2 H3 eq_refl)))).
Defined.

(** For a non-empty key, the ciphertext of a message is a prefix of
    the ciphertext of every extension of the message. *)
Theorem cipher_prefix (K M1 M2 : list Z) σ σ' :
  K ≠ [] ->
  exists c,
    (cipher K (M1 ++ M2) σ).1 = Ok c
    /\ (cipher K M1 σ').1 = Ok (take (length M1) c).
Proof.
  intros HK. rewrite !cipher_run by done. cbn [fst].
  eexists. split; [reflexivity |]. f_equal.
  rewrite crypt_app, take_app_length'; [done |]. by rewrite crypt_length.
Qed.

Lemma cipher_prefix_witness :
  generate_random_token ≠ []
  /\ exists c,
      (cipher generate_random_token (AUTH_MAGIC2 ++ [0; 0]) ∅).1 = Ok c
      /\ (cipher generate_random_token AUTH_MAGIC2 ∅).1
         = Ok (take (length AUTH_MAGIC2) c).
Proof.
  assert (H1 : generate_random_token ≠ []) by discriminate.
  exact (conj H1 (cipher_prefix _ AUTH_MAGIC2 [0; 0] ∅ ∅ H1)).
Defined.

(** *** The table is a permutation *)

Lemma wf_of_permutation p : p ≡ₚ range 0 256 -> RC4.wf p.
Proof.
  intros Hp. split.
  - by rewrite (Permutation_length Hp).
  - unfold is_bytes. rewrite Hp. apply wf_range.
Qed.

Lemma swap_permutation p i j :
  (i < length p)%nat -> (j < length p)%nat -> RC4.swap p i j ≡ₚ p.
Proof.
  intros Hi Hj. unfold RC4.swap.
  apply Permutation_insert_swap; by apply list_lookup_lookup_total_lt.
Qed.

Lemma byte_index p v : RC4.wf p -> is_byte v -> (Z.to_nat v < length p)%nat.
Proof. intros [Hl _] Hv. unfold is_byte in Hv. lia. Qed.

Lemma ksa_fold_permutation key xs : forall j p,
  RC4.wf p -> is_bytes xs ->
  (foldl (RC4.ksa_step key) (j, p) xs).2 ≡ₚ p.
Proof.
  induction xs as [| i xs IH]; intros j p Hp Hxs; [done |].
  apply Forall_cons in Hxs as [Hi Hxs]. cbn [foldl].
  unfold RC4.ksa_step at 2. cbn [fst snd].
  rewrite IH by (by apply wf_swap || done).
  apply swap_permutation; apply byte_index; try done.
  apply land_255_byte.
Qed.

Lemma crypt_permutation input : forall s,
  RC4.wf (RC4.table s) -> RC4.table (RC4.crypt input s).2 ≡ₚ RC4.table s.
Proof.
  induction input as [| x input IH]; intros s Hp; [done |].
  cbn [RC4.crypt snd]. rewrite IH by apply (prga_step_wf s Hp).
  unfold RC4.prga_step. cbn [fst RC4.table].
  apply swap_permutation; apply byte_index; try done; apply land_255_byte.
Qed.

(** X2. For a non-empty key, [_cipher_init] returns a reference that was
    not in the store, leaves at it a permutation of 0..255 and leaves
    every other object as it was. *)
Theorem cipher_init_permutation (key : list Z) σ :
  key ≠ [] ->
  exists r p,
    _cipher_init key σ = (Ok r, <[r := p]> σ)
    /\ (r ∉ dom σ)
    /\ p ≡ₚ range 0 256.
Proof.
  intros Hk. destruct (cipher_init_run key σ Hk) as [Hrun _].
  exists (fresh (dom σ)), (RC4.ksa key). split; [exact Hrun |].
  split; [apply is_fresh |].
  unfold RC4.ksa. apply ksa_fold_permutation; apply wf_range.
Qed.

Lemma cipher_init_permutation_witness :
  generate_random_token ≠ []
  /\ exists r p,
      _cipher_init generate_random_token Sample2.empty_store
      = (Ok r, <[r := p]> Sample2.empty_store)
      /\ (r ∉ dom Sample2.empty_store)
      /\ p ≡ₚ range 0 256.
Proof.
  assert (H1 : generate_random_token ≠ []) by discriminate.
  exact (conj H1 (cipher_init_permutation _ Sample2.empty_store H1)).
Defined.

(** X3. [_cipher_crypt] on a table that is a permutation of 0..255
    never raises: it returns a byte string as long as the input and
    leaves a permutation of 0..255 in the same object, other objects
    untouched. *)
Theorem cipher_crypt_keeps_permutation (input : list Z) r p σ :
  σ !! r = Some p -> p ≡ₚ range 0 256 ->
  exists out p',
    _cipher_crypt input r σ = (Ok out, <[r := p']> σ)
    /\ length out = length input
    /\ is_bytes out
    /\ p' ≡ₚ range 0 256.
Proof.
  intros Hr Hp. pose proof (wf_of_permutation p Hp) as Hwf.
  destruct (crypt_loop_run input r _ _ (range_getitem input) σ
              (RC4.mk_state 0 0 p) [] Hr Hwf) as [Hrun _].
  cbn [RC4.i1 RC4.i2] in Hrun.
  exists (RC4.crypt input (RC4.mk_state 0 0 p)).1,
         (RC4.table (RC4.crypt input (RC4.mk_state 0 0 p)).2).
  split.
  - unfold _cipher_crypt. erewrite bind_run by exact Hrun. reflexivity.
  - split; [apply crypt_length |]. split; [apply crypt_bytes |].
    by rewrite crypt_permutation.
Qed.

Lemma cipher_crypt_keeps_permutation_witness :
  Sample2.identity_store !! 0%nat = Some (range 0 256)
  /\ range 0 256 ≡ₚ range 0 256
  /\ exists out p',
      _cipher_crypt AUTH_MAGIC2 0%nat Sample2.identity_store
      = (Ok out, <[0%nat := p']> Sample2.identity_store)
      /\ length out = length AUTH_MAGIC2
      /\ is_bytes out
      /\ p' ≡ₚ range 0 256.
Proof.
  assert (H1 : Sample2.identity_store !! 0%nat = Some (range 0 256))
    by apply lookup_insert_eq.
  assert (H2 : range 0 256 ≡ₚ range 0 256) by reflexivity.
  exact (conj H1 (conj H2
           (cipher_crypt_keeps_permutation AUTH_MAGIC2 _ _ _ H1 H2))).
Defined.

(** With the empty key [cipher] raises [ZeroDivisionError] whatever
    the input, the empty input included, and whatever the store: the key
    schedule runs before the input is looked at. *)
Theorem cipher_without_key (input : list Z) σ :
  (cipher [] input σ).1 = Raise ZeroDivisionError.
Proof. apply cipher_empty_key. Qed.

End CipherMore.

(* ================================================================= *)
(** * The key derivation *)

Section KeyFacts.
Import Stdlib.Strings.Ascii Store Py XiaomiCipherMixin XiaomiAuth.

(** What a hexadecimal digit is not: whitespace, a colon, a byte of a
    character outside ASCII. *)
Lemma digit_facts c d :
  PyStr.digit c = Some d ->
  PyStr.isspace c = false /\ 0 <= d < 16 /\ Ascii.eqb c ":" = false
  /\ (Z.land (Z.of_N (N_of_ascii c)) 192 =? 128) = false.
Proof.
  destruct c as [b0 b1 b2 b3 b4 b5 b6 b7].
  destruct b0, b1, b2, b3, b4, b5, b6, b7; vm_compute; intros H;
    try discriminate H; injection H as <-;
    repeat split; discriminate || reflexivity.
Qed.

Lemma isspace_facts c :
  PyStr.isspace c = true ->
  PyStr.digit c = None /\ Ascii.eqb c ":" = false
  /\ (Z.land (Z.of_N (N_of_ascii c)) 192 =? 128) = false.
Proof.
  destruct c as [b0 b1 b2 b3 b4 b5 b6 b7].
  destruct b0, b1, b2, b3, b4, b5, b6, b7; vm_compute; intros H;
    try discriminate H; repeat split.
Qed.

Lemma fromhex_pair hi lo top bot :
  PyStr.digit hi = Some top -> PyStr.digit lo = Some bot ->
  PyStr.fromhex (PyStr.pair hi lo) = Ok [top * 16 + bot].
Proof.
  intros Hhi Hlo. destruct (digit_facts hi top Hhi) as [Hsp _].
  unfold PyStr.pair. cbn [PyStr.fromhex]. by rewrite Hsp, Hhi, Hlo.
Qed.

Lemma fromhex_ok_bounded n : forall s bs,
  (String.length s <= n)%nat ->
  PyStr.fromhex s = Ok bs ->
  is_bytes bs
  /\ 2 * Z.of_nat (length bs) + PyStr.spaces s = Z.of_nat (String.length s)
  /\ PyStr.len s = Z.of_nat (String.length s).
Proof.
  induction n as [| n IH]; intros s bs Hn.
  { destruct s; [intros [= <-]; split; [constructor | done]
                | simpl in Hn; lia]. }
  destruct s as [| c s]; [intros [= <-]; split; [constructor | done] |].
  cbn [PyStr.fromhex PyStr.spaces PyStr.len String.length] in *.
  destruct (PyStr.isspace c) eqn:Hsp.
  - intros Hs. destruct (isspace_facts c Hsp) as (_ & _ & ->).
    destruct (IH s bs ltac:(lia) Hs) as (Hb & Hl & Hlen).
    repeat split; [done | lia | lia].
  - destruct (PyStr.digit c) as [top |] eqn:Hc; [| done].
    destruct s as [| d s]; [done |].
    destruct (PyStr.digit d) as [bot |] eqn:Hd; [| done].
    destruct (PyStr.fromhex s) as [rest |] eqn:Hrest; [| done].
    intros [= <-].
    destruct (digit_facts c top Hc) as (_ & Htop & _ & ->).
    destruct (digit_facts d bot Hd) as (Hsd & Hbot & _ & Hd8).
    cbn [String.length] in Hn.
    destruct (IH s rest ltac:(lia) Hrest) as (Hb & Hl & Hlen).
    cbn [PyStr.spaces PyStr.len String.length length]. rewrite Hsd, Hd8.
    repeat split; [| lia | lia].
    constructor; [unfold is_byte; lia | done].
Qed.

(** What [fromhex] accepts: digits in pairs and whitespace, all ASCII;
    every pair gives one byte. *)
Lemma fromhex_ok s bs :
  PyStr.fromhex s = Ok bs ->
  is_bytes bs
  /\ 2 * Z.of_nat (length bs) + PyStr.spaces s = Z.of_nat (String.length s)
  /\ PyStr.len s = Z.of_nat (String.length s).
Proof. by apply (fromhex_ok_bounded (String.length s)). Qed.

Lemma fromhex_error_bounded n : forall s e,
  (String.length s <= n)%nat -> PyStr.fromhex s = Raise e -> e = ValueError.
Proof.
  induction n as [| n IH]; intros s e Hn.
  { destruct s; [done | simpl in Hn; lia]. }
  destruct s as [| c s]; [done |]. cbn [PyStr.fromhex String.length] in *.
  destruct (PyStr.isspace c); [apply IH; lia |].
  destruct (PyStr.digit c); [| congruence].
  destruct s as [| d s]; [congruence |].
  destruct (PyStr.digit d); [| congruence].
  destruct (PyStr.fromhex s) eqn:Hrest; [done |].
  intros [= <-]. apply (IH s); [simpl in Hn; lia | done].
Qed.

Lemma fromhex_error s e : PyStr.fromhex s = Raise e -> e = ValueError.
Proof. by apply (fromhex_error_bounded (String.length s)). Qed.

(** *** [reverse_mac] *)

(** The loop of [reverse_mac] visits the parts from the last to the
    first. *)
Lemma reverse_mac_unfold mac :
  reverse_mac mac
  = foldl (fun reversed_mac part =>
             acc ← reversed_mac;
             octets ← PyStr.fromhex part;
             Ok (acc ++ octets))
      (Ok []) (reverse (PyStr.split ":" mac)).
Proof.
  unfold reverse_mac. set (parts := PyStr.split ":" mac).
  assert (Hmap : (fun i => parts !! (length parts - i)%nat)
                   <$> seq 1 (length parts)
                 = Some <$> reverse parts).
  { apply list_eq. intros i. rewrite !list_lookup_fmap.
    destruct (decide (i < length parts)%nat) as [Hi | Hi].
    - rewrite lookup_seq_lt, reverse_lookup by done. cbn [fmap option_fmap option_map].
      destruct (lookup_lt_is_Some_2 parts (length parts - S i)%nat) as [x Hx];
        [lia |].
      replace (length parts - (1 + i))%nat with (length parts - S i)%nat by lia.
      by rewrite Hx.
    - rewrite lookup_seq_ge, (lookup_ge_None_2 (reverse parts))
        by (rewrite ?length_reverse; lia). done. }
  rewrite <- (foldl_fmap
    (fun reversed_mac o =>
       acc ← reversed_mac;
       match o with
       | Some part => octets ← PyStr.fromhex part; Ok (acc ++ octets)
       | None => Raise IndexError
       end) (Ok []) (seq 1 (length parts))
    (fun i => parts !! (length parts - i)%nat)).
  rewrite Hmap. by rewrite foldl_fmap.
Qed.

Lemma fold_parts_raise parts e :
  foldl (fun reversed_mac part =>
           acc ← reversed_mac;
           octets ← PyStr.fromhex part;
           Ok (acc ++ octets))
    (Raise e) parts = Raise e.
Proof. induction parts as [| part parts IH]; [done | apply IH]. Qed.

Lemma fold_parts_ok parts bss :
  Forall2 (fun part bs => PyStr.fromhex part = Ok bs) parts bss ->
  forall acc,
    foldl (fun reversed_mac part =>
             acc ← reversed_mac;
             octets ← PyStr.fromhex part;
             Ok (acc ++ octets))
      (Ok acc) parts = Ok (acc ++ concat bss).
Proof.
  induction 1 as [| part bs parts bss Hpart _ IH]; intros acc.
  - by rewrite app_nil_r.
  - cbn [concat]. rewrite app_assoc, <- IH. cbn [foldl]. f_equal.
    unfold mbind, result_bind. cbn [rbind]. by rewrite Hpart.
Qed.

Lemma fold_parts_result parts : forall acc,
  is_bytes acc ->
  match foldl (fun reversed_mac part =>
                 acc ← reversed_mac;
                 octets ← PyStr.fromhex part;
                 Ok (acc ++ octets))
          (Ok acc) parts with
  | Ok bs => is_bytes bs
  | Raise e => e = ValueError
  end.
Proof.
  induction parts as [| part parts IH]; intros acc Hacc; [done |].
  cbn [foldl].
  destruct (PyStr.fromhex part) as [bs | e] eqn:Hpart.
  - replace (Ok acc ≫= _) with (Ok (acc ++ bs)) by done.
    apply IH. apply Forall_app. split; [done | apply (fromhex_ok _ _ Hpart)].
  - replace (Ok acc ≫= _) with (Raise (A:=list Z) e) by done.
    rewrite fold_parts_raise. by apply (fromhex_error part).
Qed.

Lemma split_pair_cons hi lo rest :
  Ascii.eqb hi ":" = false -> Ascii.eqb lo ":" = false ->
  PyStr.split ":" (PyStr.pair hi lo +:+ String ":" rest)
  = PyStr.pair hi lo :: PyStr.split ":" rest.
Proof.
  intros Hc1 Hc2.
  change (PyStr.pair hi lo +:+ String ":" rest)
    with (String hi (String lo (String ":" rest))).
  cbn [PyStr.split]. by rewrite Hc1, Hc2, Ascii.eqb_refl.
Qed.

(** Splitting a string written as pairs of digits joined by colons gives
    the pairs back. *)
Lemma split_join_pairs (octets : list (ascii * ascii)) :
  octets ≠ [] ->
  Forall (fun o => is_Some (PyStr.digit o.1) /\ is_Some (PyStr.digit o.2))
    octets ->
  PyStr.split ":" (PyStr.join ":" ((fun o => PyStr.pair o.1 o.2) <$> octets))
  = (fun o => PyStr.pair o.1 o.2) <$> octets.
Proof.
  intros Hne Hall.
  induction Hall as [| [hi lo] octets [[top Hhi] [bot Hlo]] Hall IH];
    [done |].
  destruct (digit_facts hi top Hhi) as (_ & _ & Hc1 & _).
  destruct (digit_facts lo bot Hlo) as (_ & _ & Hc2 & _).
  cbn [fst snd] in *.
  destruct octets as [| o octets].
  - cbn [fmap list_fmap PyStr.join fst snd]. unfold PyStr.pair.
    cbn [PyStr.split]. by rewrite Hc1, Hc2.
  - specialize (IH ltac:(done)).
    change (PyStr.join ":" ((fun o => PyStr.pair o.1 o.2)
                              <$> (hi, lo) :: o :: octets))
      with (PyStr.pair hi lo
              +:+ String ":" (PyStr.join ":" ((fun o => PyStr.pair o.1 o.2)
                                                <$> o :: octets))).
    rewrite split_pair_cons, IH by done. reflexivity.
Qed.

(** X4. For a MAC address written as octets of two hexadecimal digits
    joined by colons, [reverse_mac] returns the values of the octets from
    the last to the first. *)
Theorem reverse_mac_octets (octets : list (ascii * ascii)) (values : list Z) :
  Forall2 (fun o v => exists top bot,
             PyStr.digit o.1 = Some top /\ PyStr.digit o.2 = Some bot
             /\ v = top * 16 + bot) octets values ->
  reverse_mac (PyStr.join ":" ((fun o => PyStr.pair o.1 o.2) <$> octets))
  = Ok (reverse values).
Proof.
  intros Hall. destruct octets as [| o octets].
  { apply Forall2_nil_inv_l in Hall as ->. reflexivity. }
  rewrite reverse_mac_unfold, split_join_pairs; [| done |].
  - rewrite (fold_parts_ok _ (reverse ((fun v => [v]) <$> values))).
    + rewrite app_nil_l. f_equal. rewrite <- fmap_reverse.
      induction (reverse values) as [| v vs IH]; [done |].
      cbn [fmap list_fmap concat app]. by rewrite IH.
    + apply Forall2_reverse, Forall2_fmap.
      eapply Forall2_impl; [exact Hall |].
      intros [hi lo] v (top & bot & Hhi & Hlo & ->). by apply fromhex_pair.
  - eapply Forall2_Forall_l; [exact Hall |].
    apply Forall_true. intros v [hi lo] (top & bot & Hhi & Hlo & _). eauto.
Qed.

(** X5. Whatever the string, [reverse_mac] either returns a byte string
    or raises [ValueError]; it raises nothing else. *)
Theorem reverse_mac_result (mac : string) :
  match reverse_mac mac with
  | Ok bs => is_bytes bs
  | Raise e => e = ValueError
  end.
Proof. rewrite reverse_mac_unfold. apply fold_parts_result. constructor. Qed.

Lemma reverse_mac_octets_witness :
  Forall2 (fun o v => exists top bot,
             PyStr.digit o.1 = Some top /\ PyStr.digit o.2 = Some bot
             /\ v = top * 16 + bot) Sample2.octets Sample2.octet_values
  /\ reverse_mac (PyStr.join ":"
                    ((fun o => PyStr.pair o.1 o.2) <$> Sample2.octets))
     = Ok (reverse Sample2.octet_values).
Proof.
  assert (H : Forall2 (fun o v => exists top bot,
                PyStr.digit o.1 = Some top /\ PyStr.digit o.2 = Some bot
                /\ v = top * 16 + bot) Sample2.octets Sample2.octet_values).
  { unfold Sample2.octets, Sample2.octet_values. cbv zeta.
    repeat (constructor;
            [eexists _, _; split; [reflexivity |]; split; reflexivity |]).
    constructor. }
  exact (conj H (reverse_mac_octets _ _ H)).
Defined.

(** *** [mix_a] and [mix_b] *)

Lemma bytes_getitem_lookup (l : list Z) i :
  0 <= i -> (Z.to_nat i < length l)%nat ->
  bytes_getitem l i = Ok (l !!! Z.to_nat i).
Proof.
  intros H0 Hi. unfold bytes_getitem.
  rewrite index_in_range by (unfold len; lia). done.
Qed.

Lemma bytes_getitem_out (l : list Z) i :
  0 <= i -> (length l <= Z.to_nat i)%nat ->
  bytes_getitem l i = Raise IndexError.
Proof.
  intros H0 Hi. unfold bytes_getitem, index, len.
  replace (i <? 0) with false by lia.
  replace (i <? Z.of_nat (length l)) with false by lia.
  by rewrite andb_false_r.
Qed.

Lemma bytes_getitem_insert_ne (l : list Z) i j v :
  0 <= i -> Z.to_nat i ≠ j ->
  bytes_getitem (<[j := v]> l) i = bytes_getitem l i.
Proof.
  intros H0 Hne. unfold bytes_getitem, index, len.
  rewrite length_insert. replace (i <? 0) with false by lia.
  by rewrite list_lookup_insert_ne.
Qed.

Lemma bytes_new_ok vs : is_bytes vs -> bytes_new vs = Ok vs.
Proof.
  intros Hvs. unfold bytes_new.
  replace (forallb is_byteb vs) with true; [done |].
  symmetry. apply forallb_forall. intros v Hv.
  apply is_byteb_true. apply (proj1 (Forall_forall _ _) Hvs).
  by apply list_elem_of_In.
Qed.

Ltac bytes_by_assumption :=
  unfold is_bytes;
  repeat (apply List.Forall_cons; [assumption |]); apply List.Forall_nil.

(** X6. For a byte string [mac], [mix_a] and [mix_b] succeed exactly
    when it has at least 6 bytes, whatever integer the product id is:
    they then return 8 bytes each; on a shorter [mac] both raise
    [IndexError]. *)
Theorem mix_keys (mac : list Z) (product_id : Z) :
  is_bytes mac ->
  ((6 <= length mac)%nat ->
   exists a b,
     mix_a mac product_id = Ok a /\ mix_b mac product_id = Ok b
     /\ length a = 8%nat /\ length b = 8%nat /\ is_bytes a /\ is_bytes b)
  /\ ((length mac < 6)%nat ->
      mix_a mac product_id = Raise IndexError
      /\ mix_b mac product_id = Raise IndexError).
Proof.
  intros Hmac. split.
  - intros Hlen.
    destruct mac as [| m0 [| m1 [| m2 [| m3 [| m4 [| m5 rest]]]]]];
      try (simpl in Hlen; lia).
    apply Forall_cons in Hmac as [H0 Hmac]. apply Forall_cons in Hmac as [H1 Hmac].
    apply Forall_cons in Hmac as [H2 Hmac]. apply Forall_cons in Hmac as [H3 Hmac].
    apply Forall_cons in Hmac as [H4 Hmac]. apply Forall_cons in Hmac as [H5 _].
    pose proof (land_255_byte product_id) as Hlow.
    pose proof (land_255_byte (Z.shiftr product_id 8)) as Hhigh.
    unfold mix_a, mix_b.
    rewrite !bytes_getitem_lookup by (simpl; lia).
    cbn [mbind result_bind rbind].
    repeat match goal with
           | |- context [?l !!! Z.to_nat ?n] =>
               let v := eval cbv in (l !!! Z.to_nat n) in
               change (l !!! Z.to_nat n) with v
           end.
    rewrite !bytes_new_ok by bytes_by_assumption.
    do 2 eexists. repeat split; try reflexivity; bytes_by_assumption.
  - intros Hlen. unfold mix_a, mix_b.
    destruct mac as [| m0 [| m1 [| m2 [| m3 [| m4 [| m5 rest]]]]]];
      try (simpl in Hlen; lia); split; reflexivity.
Qed.

Lemma mix_keys_witness :
  is_bytes Sample2.reversed_mac
  /\ exists a b,
      mix_a Sample2.reversed_mac 275 = Ok a
      /\ mix_b Sample2.reversed_mac 275 = Ok b
      /\ length a = 8%nat /\ length b = 8%nat /\ is_bytes a /\ is_bytes b.
Proof.
  assert (H : is_bytes Sample2.reversed_mac)
    by (repeat constructor; unfold is_byte; lia).
  refine (conj H (proj1 (mix_keys Sample2.reversed_mac 275 H) _)).
  simpl. lia.
Defined.

Lemma land_255_mod p n : 8 <= n -> Z.land (p mod 2 ^ n) 255 = Z.land p 255.
Proof.
  intros Hn. apply Z.bits_inj'. intros k Hk.
  change 255 with (Z.ones 8). rewrite !Z.land_spec.
  destruct (Z_lt_dec k 8).
  - by rewrite Z.mod_pow2_bits_low by lia.
  - by rewrite Z.ones_spec_high, !andb_false_r by lia.
Qed.

Lemma land_255_shiftr_mod p :
  Z.land (Z.shiftr (p mod 2 ^ 16) 8) 255 = Z.land (Z.shiftr p 8) 255.
Proof.
  apply Z.bits_inj'. intros k Hk.
  change 255 with (Z.ones 8). rewrite !Z.land_spec, !Z.shiftr_spec by lia.
  destruct (Z_lt_dec k 8).
  - by rewrite Z.mod_pow2_bits_low by lia.
  - by rewrite Z.ones_spec_high, !andb_false_r by lia.
Qed.

(** Of the product id, [mix_a] uses the low byte only and [mix_b]
    the two low bytes only: reducing the id modulo 256, respectively
    65536, changes nothing, negative ids included. *)
Theorem mix_product_id_bytes (mac : list Z) (product_id : Z) :
  mix_a mac product_id = mix_a mac (product_id mod 256)
  /\ mix_b mac product_id = mix_b mac (product_id mod 65536).
Proof.
  unfold mix_a, mix_b. split.
  - change 256 with (2 ^ 8). by rewrite land_255_mod.
  - change 65536 with (2 ^ 16).
    by rewrite land_255_shiftr_mod, land_255_mod.
Qed.

(** Neither key reads octet 3 of [mac], and [mix_b] does not read
    octet 1 either: changing them changes neither result. *)
Theorem mix_unread_octets (mac : list Z) (product_id v w : Z) :
  mix_a (<[3%nat := v]> mac) product_id = mix_a mac product_id
  /\ mix_b (<[1%nat := w]> (<[3%nat := v]> mac)) product_id
     = mix_b mac product_id.
Proof.
  unfold mix_a, mix_b.
  by rewrite !bytes_getitem_insert_ne by (lia || discriminate).
Qed.

(** *** The token *)

(** X7. A configured token that [__init__] accepts gives a byte string
    with [2 * len + whitespace = 24]: 12 bytes when the 24 characters are
    all digits, fewer when some of them are whitespace. *)
Theorem init_token_length (token : string) (bs : list Z) :
  token ≠ EmptyString ->
  init_token (Some token) = Ok bs ->
  is_bytes bs /\ 2 * Z.of_nat (length bs) + PyStr.spaces token = 24.
Proof.
  intros Hne. destruct token as [| c token]; [done |]. unfold init_token.
  destruct (Z.eqb_spec (PyStr.len (String c token)) 24) as [Hlen |]; [| done].
  intros Hhex. destruct (fromhex_ok _ _ Hhex) as (Hb & Hl & Hn).
  split; [done | lia].
Qed.

Lemma init_token_length_witness :
  Sample2.spaced_token ≠ EmptyString
  /\ init_token (Some Sample2.spaced_token)
     = Ok [1; 92; 203; 168; 128; 10; 189; 193; 46; 184; 237]
  /\ 2 * Z.of_nat (length [1; 92; 203; 168; 128; 10; 189; 193; 46; 184; 237])
     + PyStr.spaces Sample2.spaced_token = 24.
Proof.
  assert (H1 : Sample2.spaced_token ≠ EmptyString) by discriminate.
  assert (H2 : init_token (Some Sample2.spaced_token)
               = Ok [1; 92; 203; 168; 128; 10; 189; 193; 46; 184; 237])
    by reflexivity.
  exact (conj H1 (conj H2 (proj2 (init_token_length _ _ H1 H2)))).
Defined.

End KeyFacts.

(* ================================================================= *)
(** * The handshake *)

Section AuthFacts.
Import Store Py XiaomiCipherMixin XiaomiAuth.

Lemma mix_a_nonempty mac product_id key :
  mix_a mac product_id = Ok key -> key ≠ [].
Proof.
  unfold mix_a, bytes_new.
  destruct (bytes_getitem mac 0); [| done].
  destruct (bytes_getitem mac 2); [| done].
  destruct (bytes_getitem mac 5); [| done].
  destruct (bytes_getitem mac 4); [| done].
  destruct (bytes_getitem mac 1); [| done].
  cbn [mbind result_bind rbind].
  destruct (forallb is_byteb _); [| done]. by intros [= <-].
Qed.

Lemma token_message_run mac product_id token rmac key σ :
  reverse_mac mac = Ok rmac -> mix_a rmac product_id = Ok key ->
  token_message mac product_id token σ = cipher key token σ.
Proof.
  intros Hr Hk. unfold token_message. rewrite Hr.
  cbn [mbind result_bind rbind]. rewrite Hk. reflexivity.
Qed.

(** Deciphering what [cipher] returned gives the message back. *)
Lemma cipher_decipher K M σ σ' :
  K ≠ [] -> is_bytes M ->
  exists C, (cipher K M σ).1 = Ok C /\ length C = length M
            /\ (cipher K C σ').1 = Ok M.
Proof.
  intros HK HM. rewrite cipher_run by done. cbn [fst].
  eexists. split; [reflexivity |]. split; [apply crypt_length |].
  rewrite cipher_run by done. cbn [fst]. f_equal.
  apply crypt_involutive; [apply (cipher_init_run K σ HK) | done].
Qed.

(** X8. When the MAC address parses, the key can be derived, the token
    is a non-empty byte string, every call succeeds and an answer
    arrives, [auth] makes exactly seven calls in this order: the write of
    [AUTH_MAGIC1], the subscription, the write of a first message, the
    wait of 10 seconds, the write of a second message, the read of the
    version, the end of the subscription. The first message deciphers to
    the token under the key [mix_a(reverse_mac(mac), product_id)] and the
    second to [AUTH_MAGIC2] under the token. *)
Theorem auth_messages (mac : string) (product_id : Z) (token : list Z)
    (reply : Z * list Z) (rmac key : list Z) σ :
  reverse_mac mac = Ok rmac -> mix_a rmac product_id = Ok key ->
  is_bytes token -> token ≠ [] ->
  exists message1 message2 σ',
    auth mac product_id token
      (mk_auth_env None None None (Ok reply) None None None) σ
    = ([WriteGattChar UUID_AUTH_INIT AUTH_MAGIC1 true;
        StartNotify UUID_AUTH;
        WriteGattChar UUID_AUTH message1 true;
        QueueGet 10;
        WriteGattChar UUID_AUTH message2 true;
        ReadGattChar UUID_VER;
        StopNotify UUID_AUTH],
       Ok tt, σ')
    /\ length message1 = length token
    /\ (forall σ0, (cipher key message1 σ0).1 = Ok token)
    /\ (forall σ0, (cipher token message2 σ0).1 = Ok AUTH_MAGIC2).
Proof.
  intros Hr Hk Htok Hne.
  pose proof (mix_a_nonempty _ _ _ Hk) as Hkey.
  unfold auth. cbn [a_write_init a_start_notify a_write_token a_reply
                     a_write_magic a_read_ver a_stop_notify].
  rewrite (token_message_run _ _ _ _ _ _ Hr Hk).
  rewrite (cipher_run key token σ Hkey).
  rewrite (cipher_run token AUTH_MAGIC2 _ Hne).
  do 3 eexists. split; [reflexivity |].
  split; [apply crypt_length |]. split; intros σ0.
  - rewrite cipher_run by done. cbn [fst]. f_equal.
    apply crypt_involutive; [apply (cipher_init_run key σ Hkey) | done].
  - rewrite cipher_run by done. cbn [fst]. f_equal.
    apply crypt_involutive; [apply (cipher_init_run token σ Hne) |].
    repeat constructor; unfold is_byte; lia.
Qed.

Lemma auth_messages_witness :
  reverse_mac Sample2.mac = Ok Sample2.reversed_mac
  /\ is_bytes generate_random_token
  /\ exists message1 message2 σ',
      auth Sample2.mac 275 generate_random_token
        (mk_auth_env None None None (Ok (36, [])) None None None)
        Sample2.empty_store
      = ([WriteGattChar UUID_AUTH_INIT AUTH_MAGIC1 true;
          StartNotify UUID_AUTH;
          WriteGattChar UUID_AUTH message1 true;
          QueueGet 10;
          WriteGattChar UUID_AUTH message2 true;
          ReadGattChar UUID_VER;
          StopNotify UUID_AUTH],
         Ok tt, σ')
      /\ length message1 = length generate_random_token
      /\ (forall σ0,
            (cipher [255; 221; 170; 19; 19; 187; 170; 238] message1 σ0).1
            = Ok generate_random_token)
      /\ (forall σ0,
            (cipher generate_random_token message2 σ0).1 = Ok AUTH_MAGIC2).
Proof.
  assert (H1 : reverse_mac Sample2.mac = Ok Sample2.reversed_mac)
    by reflexivity.
  assert (H2 : mix_a Sample2.reversed_mac 275
               = Ok [255; 221; 170; 19; 19; 187; 170; 238]) by reflexivity.
  assert (H3 : is_bytes generate_random_token)
    by (repeat constructor; unfold is_byte; lia).
  assert (H4 : generate_random_token ≠ []) by discriminate.
  exact (conj H1 (conj H3
           (auth_messages Sample2.mac 275 generate_random_token (36, [])
              _ _ Sample2.empty_store H1 H2 H3 H4))).
Defined.

(** [auth] never looks at the answer of the kettle: with any two
    answers, and whatever the other calls do, it makes the same calls and
    ends the same way. *)
Theorem auth_ignores_reply (mac : string) (product_id : Z) (token : list Z)
    (w1 w2 w3 w4 w5 w6 : option exn) (reply1 reply2 : Z * list Z) σ :
  auth mac product_id token
    (mk_auth_env w1 w2 w3 (Ok reply1) w4 w5 w6) σ
  = auth mac product_id token
      (mk_auth_env w1 w2 w3 (Ok reply2) w4 w5 w6) σ.
Proof.
  unfold auth. cbn [a_write_init a_start_notify a_write_token a_reply
                     a_write_magic a_read_ver a_stop_notify].
  reflexivity.
Qed.

(** X9. When no answer arrives ([wait_for] raises), [auth] raises, and
    the calls it has made are at most the first four: the second message
    is not written, the version is not read and the subscription to the
    auth characteristic is not ended. *)
Theorem auth_without_reply (mac : string) (product_id : Z) (token : list Z)
    (w1 w2 w3 w4 w5 w6 : option exn) (e : exn) σ :
  exists e' message1,
    (auth mac product_id token
       (mk_auth_env w1 w2 w3 (Raise e) w4 w5 w6) σ).1.2 = Raise e'
    /\ (auth mac product_id token
          (mk_auth_env w1 w2 w3 (Raise e) w4 w5 w6) σ).1.1
       `prefix_of` [WriteGattChar UUID_AUTH_INIT AUTH_MAGIC1 true;
                    StartNotify UUID_AUTH;
                    WriteGattChar UUID_AUTH message1 true;
                    QueueGet 10].
Proof.
  unfold auth. cbn [a_write_init a_start_notify a_write_token a_reply
                     a_write_magic a_read_ver a_stop_notify].
  destruct w1 as [e1 |]; [exists e1, []; split; [done | by eexists] |].
  destruct w2 as [e2 |]; [exists e2, []; split; [done | by eexists] |].
  destruct (token_message mac product_id token σ) as [[message1 | e3] σ1];
    [| exists e3, []; split; [done | by eexists]].
  destruct w3 as [e4 |]; [exists e4, message1; split; [done | by eexists] |].
  exists e, message1. split; [done | by eexists []].
Qed.

End AuthFacts.

(* ================================================================= *)
(** * Status records and notifications *)

Section StateFacts.
Import XiaomiAuth.

(** What a record that decodes looks like. *)
Lemma from_bytes_inv (response : list Z) (st : MiKettleState.t) :
  MiKettleState.from_bytes response = Ok st ->
  exists b0 b1 b2 b3 b4 b5 b6 b7 b8 b9 b10 b11,
    response = [b0; b1; b2; b3; b4; b5; b6; b7; b8; b9; b10; b11]
    /\ Mode.of_value b0 = Ok (MiKettleState.mode st)
    /\ LEDMode.of_value b1 = Ok (MiKettleState.led_mode st)
    /\ KeepWarmType.of_value b6 = Ok (MiKettleState.keep_warm_type st)
    /\ MiKettleState.temperature st = b5
    /\ MiKettleState.target_temperature st = b4
    /\ MiKettleState.keep_warm_time st = b7 + 256 * b8.
Proof.
  intros Hdec.
  destruct (decide (length response = 12%nat)) as [Hlen | Hlen]; cycle 1.
  { unfold MiKettleState.from_bytes in Hdec.
    rewrite unpack_wrong_length in Hdec by (by rewrite FORMAT_calcsize).
    discriminate Hdec. }
  do 12 (destruct response as [| ? response]; [discriminate Hlen |]).
  destruct response; [| discriminate Hlen].
  unfold MiKettleState.from_bytes in Hdec. cbn in Hdec.
  destruct (Mode.of_value z) as [m |] eqn:Hm; [| discriminate Hdec].
  destruct (LEDMode.of_value z0) as [l |] eqn:Hl; [| discriminate Hdec].
  destruct (KeepWarmType.of_value z5) as [kw |] eqn:Hk; [| discriminate Hdec].
  cbn in Hdec. injection Hdec as <-.
  by repeat eexists.
Qed.

(** X10. A 12-byte record decodes exactly when byte 0 is a mode (0 to
    3), byte 1 a LED mode (1, 2 or 255) and byte 6 a keep-warm type (0 or
    1); no other byte can make the decoding fail. *)
Theorem from_bytes_succeeds_iff (b0 b1 b2 b3 b4 b5 b6 b7 b8 b9 b10 b11 : Z) :
  (exists st,
     MiKettleState.from_bytes [b0; b1; b2; b3; b4; b5; b6; b7; b8; b9; b10; b11]
     = Ok st)
  <-> (0 <= b0 <= 3) /\ (b1 = 1 \/ b1 = 2 \/ b1 = 255) /\ (0 <= b6 <= 1).
Proof.
  unfold MiKettleState.from_bytes. cbn.
  unfold Mode.of_value, LEDMode.of_value, KeepWarmType.of_value.
  split.
  - intros [st Hst].
    repeat match type of Hst with
           | context [?a =? ?b] => destruct (Z.eqb_spec a b)
           end; cbn in Hst; try discriminate Hst; lia.
  - intros (H0 & H1 & H6).
    repeat match goal with
           | |- context [?a =? ?b] => destruct (Z.eqb_spec a b)
           end; cbn; try (by eexists); lia.
Qed.

(** The reserved bytes of a record, bytes 2, 3, 9, 10 and 11, do not
    influence the decoding: with any values in their place the result,
    success or failure, is the same. *)
Theorem from_bytes_reserved_ignored (response : list Z) (v2 v3 v9 v10 v11 : Z) :
  MiKettleState.from_bytes
    (<[2%nat := v2]> (<[3%nat := v3]> (<[9%nat := v9]>
       (<[10%nat := v10]> (<[11%nat := v11]> response)))))
  = MiKettleState.from_bytes response.
Proof.
  do 13 (destruct response as [| ? response]; [reflexivity |]).
  reflexivity.
Qed.

(** X11. The numbers of a decoded byte string stay in the range of their
    fields: the two temperatures are single bytes and the keep-warm time
    is the 16-bit little-endian value of bytes 7 and 8. *)
Theorem from_bytes_ranges (response : list Z) (st : MiKettleState.t) :
  is_bytes response ->
  MiKettleState.from_bytes response = Ok st ->
  MiKettleState.temperature st = response !!! 5%nat
  /\ MiKettleState.target_temperature st = response !!! 4%nat
  /\ MiKettleState.keep_warm_time st
     = response !!! 7%nat + 256 * response !!! 8%nat
  /\ 0 <= MiKettleState.temperature st <= 255
  /\ 0 <= MiKettleState.target_temperature st <= 255
  /\ 0 <= MiKettleState.keep_warm_time st <= 65535.
Proof.
  intros Hb Hdec.
  destruct (from_bytes_inv _ _ Hdec)
    as (b0 & b1 & b2 & b3 & b4 & b5 & b6 & b7 & b8 & b9 & b10 & b11
        & -> & _ & _ & _ & -> & -> & ->).
  pose proof (Forall_lookup_total_1 _ _ 4 Hb ltac:(simpl; lia)) as H4.
  pose proof (Forall_lookup_total_1 _ _ 5 Hb ltac:(simpl; lia)) as H5.
  pose proof (Forall_lookup_total_1 _ _ 7 Hb ltac:(simpl; lia)) as H7.
  pose proof (Forall_lookup_total_1 _ _ 8 Hb ltac:(simpl; lia)) as H8.
  cbn in H4, H5, H7, H8. unfold is_byte in *. cbn.
  repeat split; lia.
Qed.

Lemma from_bytes_ranges_witness :
  is_bytes MiKettleState.sample
  /\ MiKettleState.from_bytes MiKettleState.sample
     = Ok (MiKettleState.mk Mode.IDLE LEDMode.NONE 40 90
             KeepWarmType.BOIL_AND_COOLDOWN 0)
  /\ 0 <= 40 <= 255.
Proof.
  assert (H1 : is_bytes MiKettleState.sample)
    by (repeat constructor; unfold is_byte; lia).
  assert (H2 : MiKettleState.from_bytes MiKettleState.sample
               = Ok (MiKettleState.mk Mode.IDLE LEDMode.NONE 40 90
                       KeepWarmType.BOIL_AND_COOLDOWN 0)) by reflexivity.
  exact (conj H1 (conj H2
           (proj1 (proj2 (proj2 (proj2
              (from_bytes_ranges _ _ H1 H2))))))).
Defined.

(** *** [notification_handler] *)

Lemma deliver_app k ns1 ns2 :
  deliver k (ns1 ++ ns2) = deliver (deliver k ns1) ns2.
Proof. unfold deliver. apply foldl_app. Qed.

(** Notifications that set no state: those of other senders and status
    records that do not decode. *)
Lemma deliver_keeps_state ns : forall k,
  Forall (fun n => n.1 = HANDLE_STATUS ->
                   exists e, MiKettleState.from_bytes n.2 = Raise e) ns ->
  _state (deliver k ns) = _state k.
Proof.
  induction ns as [| [sender data] ns IH]; intros k Hns; [done |].
  apply Forall_cons in Hns as [Hn Hns]. cbn [deliver foldl fst snd] in *.
  rewrite IH by done. unfold notification_handler.
  destruct (Z.eqb_spec sender HANDLE_STATUS) as [Heq | Hne].
  - destruct (Hn Heq) as [e ->]. done.
  - by destruct (queue k).
Qed.

(** X12. The state is replaced wholesale: after a status notification
    whose record decodes, followed only by notifications that set no
    state, [self._state] is the decoding of that record, whatever the
    state and the notifications before it were. *)
Theorem status_notification_replaces_state (k : kettle)
    (before after : list (Z * list Z)) (data : list Z)
    (st : MiKettleState.t) :
  MiKettleState.from_bytes data = Ok st ->
  Forall (fun n => n.1 = HANDLE_STATUS ->
                   exists e, MiKettleState.from_bytes n.2 = Raise e) after ->
  _state (deliver k (before ++ (HANDLE_STATUS, data) :: after)) = Some st.
Proof.
  intros Hdec Hafter.
  rewrite deliver_app. change ((HANDLE_STATUS, data) :: after)
    with ([(HANDLE_STATUS, data)] ++ after).
  rewrite deliver_app, deliver_keeps_state by done.
  cbn [deliver foldl]. unfold notification_handler.
  rewrite Z.eqb_refl, Hdec. reflexivity.
Qed.

Lemma status_notification_replaces_state_witness :
  MiKettleState.from_bytes MiKettleState.record12 = Ok MiKettleState.expected
  /\ Forall (fun n => n.1 = HANDLE_STATUS ->
                      exists e, MiKettleState.from_bytes n.2 = Raise e)
       [(HANDLE_AUTH, [1; 2]); (HANDLE_STATUS, MiKettleState.record13)]
  /\ _state (deliver (mk_kettle None (Some []))
               ([(HANDLE_STATUS, MiKettleState.sample)]
                  ++ (HANDLE_STATUS, MiKettleState.record12)
                  :: [(HANDLE_AUTH, [1; 2]);
                      (HANDLE_STATUS, MiKettleState.record13)]))
     = Some MiKettleState.expected.
Proof.
  assert (H1 : MiKettleState.from_bytes MiKettleState.record12
               = Ok MiKettleState.expected) by reflexivity.
  assert (H2 : Forall (fun n => n.1 = HANDLE_STATUS ->
                         exists e, MiKettleState.from_bytes n.2 = Raise e)
                 [(HANDLE_AUTH, [1; 2]);
                  (HANDLE_STATUS, MiKettleState.record13)]).
  { constructor; [intros H; discriminate H |].
    constructor; [intros _; by eexists | constructor]. }
  exact (conj H1 (conj H2
           (status_notification_replaces_state _ _ _ _ _ H1 H2))).
Defined.

(** X13. Once the queue exists, it receives exactly the notifications of
    the other senders, in the order of their arrival: status
    notifications never enter it, whether their record decodes or not. *)
Theorem queue_receives_other_senders (k : kettle)
    (items : list (Z * list Z)) (ns : list (Z * list Z)) :
  queue k = Some items ->
  queue (deliver k ns)
  = Some (items ++ filter (fun n => n.1 ≠ HANDLE_STATUS) ns).
Proof.
  revert k items. induction ns as [| [sender data] ns IH]; intros k items Hq.
  - cbn. by rewrite app_nil_r.
  - cbn [deliver foldl]. unfold notification_handler.
    destruct (Z.eqb_spec sender HANDLE_STATUS) as [Heq | Hne].
    + rewrite filter_cons_False by (cbn; tauto).
      destruct (MiKettleState.from_bytes data); cbn [mbind result_bind rbind];
        by apply IH.
    + rewrite filter_cons_True by done. rewrite Hq.
      fold (deliver (mk_kettle (_state k) (Some (items ++ [(sender, data)]))) ns).
      rewrite (IH _ (items ++ [(sender, data)])) by done.
      by rewrite <- app_assoc.
Qed.

Lemma queue_receives_other_senders_witness :
  queue (mk_kettle None (Some [])) = Some []
  /\ queue (deliver (mk_kettle None (Some []))
              [(HANDLE_STATUS, MiKettleState.record12);
               (HANDLE_AUTH, [1; 2]);
               (HANDLE_STATUS, MiKettleState.record13)])
     = Some ([] ++ filter (fun n => n.1 ≠ HANDLE_STATUS)
                     [(HANDLE_STATUS, MiKettleState.record12);
                      (HANDLE_AUTH, [1; 2]);
                      (HANDLE_STATUS, MiKettleState.record13)]).
Proof.
  assert (H : queue (mk_kettle None (Some [])) = Some []) by reflexivity.
  exact (conj H (queue_receives_other_senders _ _ _ H)).
Defined.

End StateFacts.

Section PublishFacts.
Import XiaomiKettle XiaomiAuth.
Context {V : Type}.
Implicit Types (dev : device (V:=V)).

(** X14. From a status notification to the broker: when the handler
    accepts a status record, the iteration of the handle loop that
    follows publishes byte 5 of the record, transformed, as the
    temperature, together with the link quality, to the state topic and
    records the time, provided a publish is due: no publish time is
    recorded, or the binary64 difference between the clock and the
    recorded time is above 30. When none is due, the iteration publishes
    nothing and keeps the recorded time. *)
Theorem status_notification_is_published dev (k k' : kettle)
    (data : list Z) (send_time : option float) (now later : float) :
  notification_handler k HANDLE_STATUS data = Ok k' ->
  handle_iteration dev send_time (mk_tick (_state k') now later)
  = if negb (truthy send_time) || interval_passed send_time now
    then ([UpdateDeviceData; LogInfo;
           Publish (unique_id dev +:+ "/state")
             [("temperature", transform_value dev (data !!! 5%nat));
              ("linkquality", linkquality dev)];
           Sleep ACTIVE_SLEEP_INTERVAL],
          Some later)
    else ([UpdateDeviceData; Sleep ACTIVE_SLEEP_INTERVAL], send_time).
Proof.
  unfold notification_handler. rewrite Z.eqb_refl.
  destruct (MiKettleState.from_bytes data) as [st |] eqn:Hdec; [| done].
  intros [= <-].
  destruct (from_bytes_inv _ _ Hdec)
    as (b0 & b1 & b2 & b3 & b4 & b5 & b6 & b7 & b8 & b9 & b10 & b11
        & -> & _ & _ & _ & Ht & _).
  unfold handle_iteration. cbn [state_now _state clock_check clock_record].
  destruct (negb (truthy send_time) || interval_passed send_time now);
    [| done].
  rewrite notify_state_run, Ht. reflexivity.
Qed.

(** X15. Whatever the states and the clock readings, the handle loop
    publishes to one topic only, [<unique id>/state], and every payload
    has exactly the two keys temperature and linkquality, the temperature
    being that of a state the loop has met. *)
Theorem handle_publishes_state_only dev (ticks : list tick)
    (topic : string) (value : list (string * V)) :
  Publish topic value ∈ handle dev ticks ->
  topic = unique_id dev +:+ "/state"
  /\ exists tk st,
      tk ∈ ticks /\ state_now tk = Some st
      /\ value = [("temperature",
                   transform_value dev (MiKettleState.temperature st));
                  ("linkquality", linkquality dev)].
Proof.
  unfold handle. generalize (@None float) as send_time.
  induction ticks as [| tk ticks IH]; intros send_time Hin.
  { by apply elem_of_nil in Hin. }
  cbn [handle_loop] in Hin. apply elem_of_app in Hin as [Hin | Hin].
  - destruct (handle_iteration_cases dev send_time tk)
      as [(st & Hst & _ & Heq) | [_ Heq]]; rewrite Heq in Hin; cbn [fst] in Hin.
    + apply elem_of_cons in Hin as [Hin | Hin]; [done |].
      apply elem_of_cons in Hin as [Hin | Hin]; [done |].
      apply elem_of_cons in Hin as [Hin | Hin].
      * injection Hin as -> ->. split; [done |].
        exists tk, st. split; [left | done].
      * apply list_elem_of_singleton in Hin. done.
    + apply elem_of_cons in Hin as [Hin | Hin]; [done |].
      apply list_elem_of_singleton in Hin. done.
  - destruct (IH _ Hin) as (Ht & tk' & st & Htk & Hst & Hv).
    split; [done |]. exists tk', st. split; [by right | done].
Qed.

End PublishFacts.

(** A first status record, nothing published before; the same record a
    second after a publish. *)
Lemma status_notification_is_published_witness :
  XiaomiAuth.notification_handler (XiaomiAuth.mk_kettle None None)
    XiaomiAuth.HANDLE_STATUS MiKettleState.record12
  = Ok (XiaomiAuth.mk_kettle (Some MiKettleState.expected) None)
  /\ XiaomiKettle.handle_iteration Sample.kettle None
       (XiaomiKettle.mk_tick (Some MiKettleState.expected)
          1700000000%float 1700000000%float)
     = ([XiaomiKettle.UpdateDeviceData; XiaomiKettle.LogInfo;
         XiaomiKettle.Publish "mikettle_aabbccddeeff/state"
           [("temperature", 45); ("linkquality", 60)];
         XiaomiKettle.Sleep 1],
        Some 1700000000%float)
  /\ XiaomiKettle.handle_iteration Sample.kettle (Some Sample.last_publish)
       (XiaomiKettle.mk_tick (Some MiKettleState.expected)
          1700000001%float 1700000001%float)
     = ([XiaomiKettle.UpdateDeviceData; XiaomiKettle.Sleep 1],
        Some Sample.last_publish).
Proof.
  assert (H : XiaomiAuth.notification_handler (XiaomiAuth.mk_kettle None None)
                XiaomiAuth.HANDLE_STATUS MiKettleState.record12
              = Ok (XiaomiAuth.mk_kettle (Some MiKettleState.expected) None))
    by reflexivity.
  split; [exact H |]. split.
  - exact (status_notification_is_published Sample.kettle _ _ _ None
             1700000000%float 1700000000%float H).
  - exact (status_notification_is_published Sample.kettle _ _ _
             (Some Sample.last_publish) 1700000001%float 1700000001%float H).
Defined.

Lemma handle_publishes_state_only_witness :
  XiaomiKettle.Publish "mikettle_aabbccddeeff/state"
    [("temperature", 45); ("linkquality", 60)]
  ∈ XiaomiKettle.handle Sample.kettle [Sample.tick_at_30s]
  /\ "mikettle_aabbccddeeff/state"
     = XiaomiKettle.unique_id Sample.kettle +:+ "/state".
Proof.
  assert (H : XiaomiKettle.Publish "mikettle_aabbccddeeff/state"
                [("temperature", 45); ("linkquality", 60)]
              ∈ XiaomiKettle.handle Sample.kettle [Sample.tick_at_30s])
    by (do 2 right; left).
  exact (conj H (proj1 (handle_publishes_state_only _ _ _ _ H))).
Defined.


(* ================================================================= *)
(** * Registration and dispatch *)

Section RoutingFacts.
Import Ble2Mqtt Bridge.
Context {J : Type} (json_loads : string -> option J).
Implicit Types (reg : list Device.t) (msg : message) (env : answers).

Lemma find_app_l {A} (f : A -> bool) (l1 l2 : list A) x :
  find f l1 = Some x -> find f (l1 ++ l2) = Some x.
Proof.
  induction l1 as [| y l1 IH]; [done |]. cbn [find app].
  destruct (f y); [done | apply IH].
Qed.

Lemma subscribed_topics_app reg1 reg2 :
  subscribed_topics (reg1 ++ reg2)
  = subscribed_topics reg1 ++ subscribed_topics reg2.
Proof. unfold subscribed_topics. apply bind_app. Qed.

Lemma subscribed_topics_one d :
  subscribed_topics [d] = join TOPIC_ROOT <$> Device.subscribed_topics d.
Proof.
  unfold subscribed_topics. cbn [mbind list_bind]. rewrite app_nil_r.
  induction (Device.subscribed_topics d) as [| t ts IH]; [done |].
  cbn [mbind list_bind fmap list_fmap app]. by rewrite <- IH.
Qed.

(** X16. [register] appends: the topics of the new device come after
    those already subscribed, a device that is [None] changes nothing,
    and a topic that had an owner keeps it, so a device registered later
    never takes over a topic of an earlier one. *)
Theorem register_keeps_owners reg (d : Device.t) :
  subscribed_topics (register reg (Some d))
  = subscribed_topics reg ++ (join TOPIC_ROOT <$> Device.subscribed_topics d)
  /\ register reg None = reg
  /\ forall t owner,
      find (fun _device => contains (Device.subscribed_topics _device) t) reg
      = Some owner ->
      find (fun _device => contains (Device.subscribed_topics _device) t)
        (register reg (Some d))
      = Some owner.
Proof.
  split; [| split].
  - cbn [register]. by rewrite subscribed_topics_app, subscribed_topics_one.
  - reflexivity.
  - intros t owner Hfind. by apply find_app_l.
Qed.







End RoutingFacts.


(* ================================================================= *)
(** * The device supervisor, further *)

Section SupervisorMore.
Import Ble2Mqtt.
Context {J : Type}.
Implicit Types (device : Device.t) (c : cycle).

(** X19. A connection to the device that fails with an exception
    other than a cancellation does not end the supervisor: each failure
    is logged and followed by a pause of 10 seconds and, as long as the
    pause returns (it is not cancelled), by another attempt, with no
    bound on the number of attempts, and none of the steps after the
    connection is taken. *)
Theorem connect_failures_are_retried device (failing rest : list cycle) :
  Forall (fun c => (exists e, c_connect c = Some e /\ is_Exception e = true)
                   /\ c_sleep_retry c = None)
    failing ->
  manage_device (J:=J) device (failing ++ rest)
  = (concat (replicate (length failing)
               [DeviceConnect (Device.unique_id device); LogException;
                Sleep 10])
       ++ (manage_device (J:=J) device rest).1,
     (manage_device (J:=J) device rest).2).
Proof.
  induction 1 as [| c failing [(e & Hc & He) Hsleep] _ IH].
  { by destruct (manage_device _ _). }
  cbn [app manage_device]. unfold run_cycle. rewrite Hc, He, Hsleep.
  cbn [fst snd]. rewrite IH. reflexivity.
Qed.





End SupervisorMore.

(** Three failed connections, then a pass that is served. *)
Lemma connect_failures_are_retried_witness :
  Forall (fun c => (exists e, Ble2Mqtt.c_connect c = Some e
                              /\ Ble2Mqtt.is_Exception e = true)
                   /\ Ble2Mqtt.c_sleep_retry c = None)
    (replicate 3 Sample2.unreachable)
  /\ (Ble2Mqtt.manage_device (J:=Empty_set) Sample.plug
        (replicate 3 Sample2.unreachable ++ [Sample.served None])).2
     = Ble2Mqtt.Running.
Proof.
  assert (H : Forall (fun c => (exists e, Ble2Mqtt.c_connect c = Some e
                                          /\ Ble2Mqtt.is_Exception e = true)
                               /\ Ble2Mqtt.c_sleep_retry c = None)
                (replicate 3 Sample2.unreachable)).
  { repeat first [apply List.Forall_cons | apply List.Forall_nil];
      (split; [by exists RuntimeError | reflexivity]). }
  split; [exact H |].
  exact (f_equal snd
           (connect_failures_are_retried (J:=Empty_set) Sample.plug
              (replicate 3 Sample2.unreachable) [Sample.served None] H)).
Defined.

(** A cancellation during the pause after a failed connection ends the
    supervisor. *)
Example retry_pause_cancelled :
  Ble2Mqtt.manage_device (J:=Empty_set) Sample.plug
    [Sample2.unreachable; Sample2.interrupted; Sample.served None]
  = ([Ble2Mqtt.DeviceConnect "plug1"; Ble2Mqtt.LogException;
      Ble2Mqtt.Sleep 10;
      Ble2Mqtt.DeviceConnect "plug1"; Ble2Mqtt.LogException;
      Ble2Mqtt.Sleep 10],
     Ble2Mqtt.Raised CancelledError).
Proof. reflexivity. Qed.


(** The call that creates the handle task raises: the handle is not
    stored and the supervisor ends with [KeyError]. *)
Example handle_call_rejected :
  Ble2Mqtt.manage_device (J:=Empty_set) Sample.plug
    [Sample2.handle_rejected; Sample.served None]
  = ([Ble2Mqtt.DeviceConnect "plug1"; Ble2Mqtt.SendDeviceConfig "plug1";
      Ble2Mqtt.DeviceInit "plug1";
      Ble2Mqtt.Subscribe ["ble2mqtt/plug1/power/set"];
      Ble2Mqtt.CreateHandleTask "plug1"; Ble2Mqtt.PopHandle "plug1"],
     Ble2Mqtt.Raised KeyError).
Proof. reflexivity. Qed.


(* ================================================================= *)
(** * The connection loop, further *)

Section ConnectionMore.
Import Ble2Mqtt Bridge.
Context {J : Type}.
Implicit Types (reg : list Device.t) (a : attempt).

Lemma spawned_app (t1 t2 : list (event (J:=J))) :
  spawned (t1 ++ t2) = spawned t1 ++ spawned t2.
Proof. apply omap_app. Qed.

Lemma spawned_tasks reg :
  spawned (J:=J) (CreateManageDeviceTask ∘ Device.unique_id <$> reg)
  = Device.unique_id <$> reg.
Proof.
  induction reg as [| d reg IH]; [done |].
  cbn [fmap list_fmap].
  change (Device.unique_id d :: spawned (J:=J)
            (CreateManageDeviceTask ∘ Device.unique_id <$> reg)
          = Device.unique_id d :: (Device.unique_id <$> reg)).
  by rewrite IH.
Qed.

(** X23. The connection loop raises nothing but a cancellation: every
    other exception of the connection, of the publications and of the
    wait for the disconnection is handled inside the loop. *)
Theorem connect_forever_raises_only_cancellation reg (interval : Z)
    (attempts : list attempt) (e : exn) :
  (_connect_forever (J:=J) reg interval attempts).2 = Raised e ->
  e = CancelledError.
Proof.
  induction attempts as [| a attempts IH]; [done |].
  cbn [_connect_forever]. unfold publish_offline.
  destruct (connect_block reg a).2 as [[] |];
    cbn [fst snd]; try exact IH; try done;
    destruct (a_publish_offline a) as [[] |]; cbn; congruence.
Qed.

(** X24. Only a refused access and a lost connection lead to another
    connection attempt. However else the [try] block ends, also when the
    connection ends without an error, the loop is left: what would come
    next is never looked at. *)
Theorem reconnects_only_after_refused_or_lost reg (interval : Z) a
    (attempts : list attempt) :
  (connect_block (J:=J) reg a).2 ≠ Some AccessRefusedError ->
  (connect_block (J:=J) reg a).2 ≠ Some ConnectionLostError ->
  _connect_forever (J:=J) reg interval (a :: attempts)
  = _connect_forever (J:=J) reg interval [a]
  /\ (_connect_forever (J:=J) reg interval (a :: attempts)).2 ≠ Running.
Proof.
  intros Hrefused Hlost. cbn [_connect_forever]. unfold publish_offline.
  destruct (connect_block reg a).2 as [[] |];
    try done; cbn [fst snd];
    try (split; [reflexivity | done]);
    destruct (a_publish_offline a) as [[] |]; cbn;
    (split; [reflexivity | done]).
Qed.

(** The supervisor tasks one pass creates. *)
Lemma spawned_connect_block reg a :
  spawned (connect_block (J:=J) reg a).1
  = match a_connect a, a_publish_online a with
    | None, None => Device.unique_id <$> reg
    | _, _ => []
    end.
Proof.
  unfold connect_block.
  destruct (a_connect a); [done |]. destruct (a_publish_online a); [done |].
  cbn [fst]. rewrite !spawned_app, spawned_tasks.
  change (spawned (J:=J)
            [Connect; LogInfo "Connected"; PublishAvailability "online"])
    with (@nil string).
  change (spawned (J:=J)
            [LogInfo "Wait for network interruptions...";
             AwaitDisconnectReason])
    with (@nil string).
  by rewrite app_nil_r.
Qed.

(** X25. A pass of the connection loop creates a supervisor task for
    each registered device exactly when the connection is established
    and ['online'] is published, also for a device that already has one
    from an earlier pass. Over passes that each end with a lost
    connection or a refused access, at whichever step, the loop is still
    running and has created one task per device for each pass that got
    that far, in the order of the passes. *)
Theorem reconnect_respawns_supervisors reg (interval : Z)
    (attempts : list attempt) :
  Forall (fun a => (connect_block (J:=J) reg a).2 = Some ConnectionLostError
                   \/ (connect_block (J:=J) reg a).2
                      = Some AccessRefusedError)
    attempts ->
  spawned (_connect_forever (J:=J) reg interval attempts).1
  = concat ((fun a => match a_connect a, a_publish_online a with
                      | None, None => Device.unique_id <$> reg
                      | _, _ => []
                      end) <$> attempts)
  /\ (_connect_forever (J:=J) reg interval attempts).2 = Running.
Proof.
  induction 1 as [| a attempts Hr _ [IHt IHo]]; [done |].
  cbn [_connect_forever]. cbv zeta.
  pose proof (spawned_connect_block reg a) as Hhere.
  destruct Hr as [-> | ->]; cbn [fst snd];
    (split; [| exact IHo]);
    rewrite spawned_app, Hhere;
    change (spawned (LogError ?m :: Sleep ?i :: ?l)) with (spawned l);
    change (spawned (LogError ?m :: ?l)) with (spawned l);
    rewrite IHt; reflexivity.
Qed.

End ConnectionMore.

(** A connection that ends without an error is not followed by
    another. *)
Lemma reconnects_only_after_refused_or_lost_witness :
  Ble2Mqtt._connect_forever (J:=Empty_set) [Sample.plug] 10
    [Sample2.ended; Sample2.lost]
  = Ble2Mqtt._connect_forever (J:=Empty_set) [Sample.plug] 10 [Sample2.ended].
Proof.
  exact (proj1 (reconnects_only_after_refused_or_lost (J:=Empty_set)
                  [Sample.plug] 10 Sample2.ended [Sample2.lost]
                  ltac:(discriminate) ltac:(discriminate))).
Defined.

(** Two lost connections, and between them one lost while ['online']
    is published: two supervisor tasks for the one device. *)
Lemma reconnect_respawns_supervisors_witness :
  Bridge.spawned
    (Ble2Mqtt._connect_forever (J:=Empty_set) [Sample.plug] 10
       [Sample2.lost; Sample2.lost_early; Sample2.lost]).1
  = ["plug1"; "plug1"].
Proof.
  exact (proj1 (reconnect_respawns_supervisors (J:=Empty_set)
                  [Sample.plug] 10
                  [Sample2.lost; Sample2.lost_early; Sample2.lost]
                  ltac:(repeat first [apply List.Forall_cons
                                     | apply List.Forall_nil];
                        by left))).
Defined.

(** A cancellation while the connection is awaited. *)
Lemma connect_forever_raises_only_cancellation_witness :
  (Ble2Mqtt._connect_forever (J:=Empty_set) [Sample.plug] 10
     [Sample2.lost;
      Ble2Mqtt.mk_attempt None None (Some CancelledError) None]).2
  = Ble2Mqtt.Raised CancelledError
  /\ CancelledError = CancelledError.
Proof.
  split; [reflexivity |].
  exact (connect_forever_raises_only_cancellation (J:=Empty_set)
           [Sample.plug] 10
           [Sample2.lost;
            Ble2Mqtt.mk_attempt None None (Some CancelledError) None]
           CancelledError eq_refl).
Defined.

(* ================================================================= *)
(** * Shutdown *)

Section CloseFacts.
Import Bridge.
Implicit Types (tasks : list task) (t : task).

(** The cancellations of the tasks that are not done, the first task
    having the index [i]. *)
Lemma close_tasks_all tasks : forall i,
  Forall (fun t => t_done t = true \/ t_await t = None
                   \/ t_await t = Some CancelledError) tasks ->
  close_tasks i tasks
  = (concat (imap (fun j t => if t_done t then []
                              else [Cancel (i + j); Await (i + j)]) tasks),
     None).
Proof.
  induction tasks as [| t tasks IH]; intros i Hall; [done |].
  apply Forall_cons in Hall as [Ht Hall].
  cbn [close_tasks imap concat].
  rewrite (IH (S i) Hall), Nat.add_0_r.
  rewrite (imap_ext ((fun j t => if t_done t then []
                                 else [Cancel (i + j); Await (i + j)]) ∘ S)
             (fun j t => if t_done t then []
                         else [Cancel (S i + j); Await (S i + j)]));
    cycle 1.
  { intros j t' _. cbn [compose]. by rewrite Nat.add_succ_r. }
  destruct (t_done t); [done |].
  destruct Ht as [Ht | [-> | ->]]; [done | done..].
Qed.

Lemma close_tasks_abort pre : forall i t post e,
  Forall (fun t => t_done t = true \/ t_await t = None
                   \/ t_await t = Some CancelledError) pre ->
  t_done t = false -> t_await t = Some e -> e ≠ CancelledError ->
  close_tasks i (pre ++ t :: post)
  = (concat (imap (fun j t => if t_done t then []
                              else [Cancel (i + j); Await (i + j)]) pre)
       ++ [Cancel (i + length pre); Await (i + length pre)],
     Some e).
Proof.
  induction pre as [| t0 pre IH]; intros i t post e Hall Hdone Hawait He.
  { cbn [app close_tasks imap concat length]. rewrite Hdone, Hawait.
    rewrite Nat.add_0_r. by destruct e. }
  apply Forall_cons in Hall as [Ht Hall].
  cbn [app close_tasks imap concat length].
  rewrite (IH (S i) t post e Hall Hdone Hawait He), Nat.add_0_r.
  rewrite (imap_ext ((fun j t => if t_done t then []
                                 else [Cancel (i + j); Await (i + j)]) ∘ S)
             (fun j t => if t_done t then []
                         else [Cancel (S i + j); Await (S i + j)]));
    cycle 1.
  { intros j t' _. cbn [compose]. by rewrite Nat.add_succ_r. }
  rewrite Nat.add_succ_r.
  destruct (t_done t0); [done |].
  destruct Ht as [Ht | [-> | ->]]; [done | done..].
Qed.

(** X26. When awaiting the cancelled tasks raises nothing but the
    cancellation, [close] cancels and awaits every task that is not
    done, in the order of [self._tasks], skips the tasks that are done,
    and then disconnects the client if and only if it is connected; the
    result is that of the disconnection. *)
Theorem close_cancels_every_task tasks (is_connected : bool)
    (disconnect : option exn) :
  Forall (fun t => t_done t = true \/ t_await t = None
                   \/ t_await t = Some CancelledError) tasks ->
  close tasks is_connected disconnect
  = (concat (imap (fun j t => if t_done t then [] else [Cancel j; Await j])
               tasks)
       ++ (if is_connected then [Disconnect] else []),
     match disconnect with
     | Some e => if is_connected then Raise e else Ok tt
     | None => Ok tt
     end).
Proof.
  intros Hall. unfold close. rewrite (close_tasks_all tasks 0 Hall).
  cbn [fst snd]. destruct is_connected, disconnect; by rewrite ?app_nil_r.
Qed.

(** X27. When a cancelled task ends with an exception that is not the
    cancellation, [close] raises it at once: the tasks after it are
    neither cancelled nor awaited, and the client is not disconnected
    even when it is connected. *)
Theorem close_aborts_on_task_error (pre post : list task) t (e : exn)
    (is_connected : bool) (disconnect : option exn) :
  Forall (fun t => t_done t = true \/ t_await t = None
                   \/ t_await t = Some CancelledError) pre ->
  t_done t = false -> t_await t = Some e -> e ≠ CancelledError ->
  close (pre ++ t :: post) is_connected disconnect
  = (concat (imap (fun j t => if t_done t then [] else [Cancel j; Await j])
               pre)
       ++ [Cancel (length pre); Await (length pre)],
     Raise e).
Proof.
  intros Hall Hdone Hawait He. unfold close.
  by rewrite (close_tasks_abort pre 0 t post e Hall Hdone Hawait He).
Qed.

End CloseFacts.

(** A finished task and a running one, the client connected. *)
Lemma close_cancels_every_task_witness :
  Bridge.close [Sample2.finished_task; Sample2.running_task] true None
  = ([Bridge.Cancel 1; Bridge.Await 1; Bridge.Disconnect], Ok tt).
Proof.
  exact (close_cancels_every_task
           [Sample2.finished_task; Sample2.running_task] true None
           ltac:(repeat first [apply List.Forall_cons | apply List.Forall_nil];
                 cbn; auto)).
Defined.

(** The second running task fails while it is cancelled; the third is
    left alone and the client stays connected. *)
Lemma close_aborts_on_task_error_witness :
  Bridge.close
    ([Sample2.finished_task; Sample2.running_task]
       ++ Sample2.failing_task :: [Sample2.running_task]) true None
  = ([Bridge.Cancel 1; Bridge.Await 1; Bridge.Cancel 2; Bridge.Await 2],
     Raise RuntimeError).
Proof.
  exact (close_aborts_on_task_error
           [Sample2.finished_task; Sample2.running_task]
           [Sample2.running_task] Sample2.failing_task RuntimeError true None
           ltac:(repeat first [apply List.Forall_cons | apply List.Forall_nil];
                 cbn; auto) eq_refl eq_refl
           ltac:(discriminate)).
Defined.

(* ================================================================= *)
(** * Discovery *)

Section DiscoveryFacts.
Import Ble2Mqtt Discovery.
Implicit Types (dev : device) (info : device_info).
Implicit Types (entity : gmap string string) (tr : list event).

(** What [get_generic_vals] returns for an entity that has a name. *)
Lemma get_generic_vals_run dev info entity (name : string) :
  entity !! "name" = Some name ->
  exists generic : gmap string pv,
    get_generic_vals dev info entity
    = Ok (generic, delete "icon" (delete "name" entity))
    /\ generic !! "name" = Some (PStr (name +:+ "_" +:+ dev_id dev))
    /\ (forall k v, k ≠ "name" -> k ≠ "icon" -> entity !! k = Some v ->
        generic !! k = Some (PStr v))
    /\ (entity !! "unique_id" = None ->
        generic !! "unique_id" = Some (PStr (name +:+ "_" +:+ dev_id dev)))
    /\ (entity !! "device" = None -> generic !! "device" = Some (PDevice info))
    /\ generic !! "icon"
       = match entity !! "icon" with
         | Some (String a i) => Some (PStr ("mdi:" +:+ String a i))
         | _ => None
         end.
Proof.
  intros Hname. unfold get_generic_vals. rewrite Hname. cbv zeta.
  rewrite (lookup_delete_ne entity "name" "icon") by done.
  eexists. split; [reflexivity |].
  assert (Hentity :
            forall k, (PStr <$> delete "icon" (delete "name" entity)) !! k
                      = if decide (k = "name" \/ k = "icon") then None
                        else PStr <$> entity !! k).
  { intros k. rewrite lookup_fmap. case_decide as Hk.
    - destruct Hk as [-> | ->].
      + by rewrite lookup_delete_ne, lookup_delete_eq.
      + by rewrite lookup_delete_eq.
    - rewrite !lookup_delete_ne by (intros <-; tauto). done. }
  repeat split.
  - rewrite lookup_union_r by (rewrite Hentity; by case_decide; tauto).
    destruct (entity !! "icon") as [[| a i] |];
      by rewrite ?(lookup_insert_ne _ "icon" "name") by done.
  - intros k v Hk1 Hk2 Hv. apply lookup_union_Some_l.
    rewrite Hentity, Hv. case_decide; [tauto | done].
  - intros Hnone. rewrite lookup_union_r; cycle 1.
    { rewrite Hentity, Hnone. by case_decide. }
    destruct (entity !! "icon") as [[| a i] |];
      by rewrite ?(lookup_insert_ne _ "icon" "unique_id") by done.
  - intros Hnone. rewrite lookup_union_r; cycle 1.
    { rewrite Hentity, Hnone. by case_decide. }
    destruct (entity !! "icon") as [[| a i] |];
      by rewrite ?(lookup_insert_ne _ "icon" "device") by done.
  - rewrite lookup_union_r by (rewrite Hentity; by case_decide; tauto).
    by destruct (entity !! "icon") as [[| a i] |].
Qed.

(** X28. For an entity with a name, [get_generic_vals] gives the name
    and, unless the entity has these keys itself, the unique id and the
    device information; every other key of the entity goes into the
    result as it is and takes precedence over a generated one; the icon
    is given the prefix [mdi:] and left out when it is absent or empty.
    The entity loses its name and its icon. *)
Theorem generic_vals_precedence dev info entity (name : string) :
  entity !! "name" = Some name ->
  exists generic : gmap string pv,
    get_generic_vals dev info entity
    = Ok (generic, delete "icon" (delete "name" entity))
    /\ generic !! "name" = Some (PStr (name +:+ "_" +:+ dev_id dev))
    /\ (forall k v, k ≠ "name" -> k ≠ "icon" -> entity !! k = Some v ->
        generic !! k = Some (PStr v))
    /\ (entity !! "unique_id" = None ->
        generic !! "unique_id" = Some (PStr (name +:+ "_" +:+ dev_id dev)))
    /\ (entity !! "device" = None -> generic !! "device" = Some (PDevice info))
    /\ generic !! "icon"
       = match entity !! "icon" with
         | Some (String a i) => Some (PStr ("mdi:" +:+ String a i))
         | _ => None
         end.
Proof. apply get_generic_vals_run. Qed.

(** *** What is published *)

Lemma for_entities_trace (P : event -> Prop)
    (config : gmap string string -> list event
              -> list event * option exn * gmap string string)
    (es : list (gmap string string)) :
  (forall entity tr, entity ∈ es -> Forall P tr ->
                     Forall P (config entity tr).1.1) ->
  forall tr, Forall P tr -> Forall P (for_entities config es tr).1.1.
Proof.
  induction es as [| entity es IH]; intros Hconfig tr Htr; [done |].
  cbn [for_entities].
  pose proof (Hconfig entity tr ltac:(left) Htr) as Hhere.
  destruct (config entity tr) as [[tr1 [e |]] entity']; cbn [fst snd] in *;
    [done |].
  apply IH; [| done].
  intros entity0 tr0 Hin. apply Hconfig. by right.
Qed.

Lemma for_classes_trace (P : event -> Prop) dev info fails
    (items : list (string * list (gmap string string))) :
  (forall es entity tr, ("switch", es) ∈ items -> entity ∈ es ->
     Forall P tr -> Forall P (config_switch dev info fails entity tr).1.1) ->
  (forall es entity tr, ("sensor", es) ∈ items -> entity ∈ es ->
     Forall P tr -> Forall P (config_sensor dev info fails entity tr).1.1) ->
  forall tr, Forall P tr -> Forall P (for_classes dev info fails items tr).1.1.
Proof.
  induction items as [| [cls es] items IH]; intros Hswitch Hsensor tr Htr;
    [done |].
  cbn [for_classes].
  assert (Hclass : Forall P (config_class dev info fails cls es tr).1.1).
  { unfold config_class.
    destruct (String.eqb cls "switch") eqn:Hsw.
    - apply String.eqb_eq in Hsw as ->. cbn [String.eqb Ascii.eqb Bool.eqb].
      assert (Forall P (for_entities (config_switch dev info fails) es tr).1.1)
        as Hfor.
      { apply for_entities_trace; [| done].
        intros entity tr0 Hin. apply (Hswitch es); [left | done]. }
      by destruct (for_entities _ es tr) as [[tr1 [e |]] es'].
    - cbn [fst snd]. destruct (String.eqb cls "sensor") eqn:Hse; [| done].
      apply String.eqb_eq in Hse as ->.
      apply for_entities_trace; [| done].
      intros entity tr0 Hin. apply (Hsensor es); [left | done]. }
  destruct (config_class dev info fails cls es tr) as [[tr1 [e |]] es'];
    cbn [fst snd] in *; [done |].
  apply IH; [| | done].
  - intros es0 entity tr0 Hin. apply Hswitch. by right.
  - intros es0 entity tr0 Hin. apply Hsensor. by right.
Qed.

(** Settles that one publication is as the statement below describes
    it. *)
Local Ltac publication Q cls es entity name :=
  unfold Q; exists cls, es, entity, name;
  split; [done |]; split; [done |]; split; [done |];
  split; [first [by left | by right] |];
  first
    [ right; by repeat split
    | left; split; [done |]; split; [done |];
      eexists; split; [reflexivity |];
      repeat split; intros; simplify_map_eq; done ].

(** X29. Everything [send_device_config] publishes comes from an
    entity of the class ['switch'] or ['sensor'] and its name. It is
    either the retained configuration of the entity, published to
    [homeassistant/<class>/<dev_id>/<name>/config], whose payload gives
    the name as [<name>_<dev_id>] and the state topic as
    [ble2mqtt/<unique_id>/<name>] whatever keys the entity has, with the
    command topic [<state topic>/<SET_POSTFIX>] for a switch and the
    value template for a sensor; or, for a switch, the plain ['OFF']
    published without the retain flag to the state topic. *)
Theorem config_publications dev (fails : nat -> option exn)
    (entities : list (string * list (gmap string string))) :
  Forall (fun e =>
    match e with
    | Publish topic p retain =>
        exists cls es entity (name : string),
          (cls, es) ∈ entities /\ entity ∈ es
          /\ entity !! "name" = Some name
          /\ (cls = "switch" \/ cls = "sensor")
          /\ ((retain = true
               /\ topic = join CONFIG_MQTT_NAMESPACE
                            (join cls (join (dev_id dev) (join name "config")))
               /\ exists d : gmap string pv,
                   p = PJson d
                   /\ d !! "name" = Some (PStr (name +:+ "_" +:+ dev_id dev))
                   /\ d !! "state_topic"
                      = Some (PStr (join TOPIC_ROOT
                                      (join (unique_id dev) name)))
                   /\ (cls = "switch" ->
                       d !! "command_topic"
                       = Some (PStr (join (join TOPIC_ROOT
                                             (join (unique_id dev) name))
                                       (SET_POSTFIX dev))))
                   /\ (cls = "sensor" ->
                       d !! "value_template"
                       = Some (PStr ("{{ value_json." +:+ name +:+ " }}"))))
              \/ (retain = false /\ cls = "switch"
                  /\ topic = join TOPIC_ROOT (join (unique_id dev) name)
                  /\ p = PRaw "OFF"))
    end) (send_device_config dev fails entities).1.1.
Proof.
  unfold send_device_config. apply for_classes_trace; [| | done].
  - intros es entity tr Hes Hentity Htr.
    match type of Htr with Forall ?P _ => set (Q := P) in * end.
    unfold config_switch.
    destruct (entity !! "name") as [name |] eqn:Hname; [| done].
    match goal with
    | |- context [get_generic_vals dev ?info entity] =>
        destruct (get_generic_vals_run dev info entity name Hname)
          as (generic & -> & Hgname & _)
    end.
    cbv zeta. destruct (fails (length tr)); cbn [fst snd];
      rewrite !Forall_app, !Forall_singleton; repeat split; try done;
      publication Q "switch" es entity name.
  - intros es entity tr Hes Hentity Htr.
    match type of Htr with Forall ?P _ => set (Q := P) in * end.
    unfold config_sensor.
    destruct (entity !! "name") as [name |] eqn:Hname; [| done].
    match goal with
    | |- context [get_generic_vals dev ?info entity] =>
        destruct (get_generic_vals_run dev info entity name Hname)
          as (generic & -> & Hgname & _)
    end.
    cbv zeta. cbn [fst snd].
    rewrite !Forall_app, !Forall_singleton. split; [done |].
    publication Q "sensor" es entity name.
Qed.

(** *** What is left of the entities *)

Lemma config_switch_entity dev info fails entity tr :
  (config_switch dev info fails entity tr).1.2 = None ->
  (config_switch dev info fails entity tr).2
  = delete "icon" (delete "name" entity).
Proof.
  unfold config_switch.
  destruct (entity !! "name") as [name |] eqn:Hname; [| done].
  destruct (get_generic_vals_run dev info entity name Hname)
    as (generic & -> & _).
  cbv zeta. by destruct (fails (length tr)).
Qed.

Lemma config_sensor_entity dev info fails entity tr :
  (config_sensor dev info fails entity tr).1.2 = None ->
  (config_sensor dev info fails entity tr).2
  = delete "icon" (delete "name" entity).
Proof.
  unfold config_sensor.
  destruct (entity !! "name") as [name |] eqn:Hname; [| done].
  by destruct (get_generic_vals_run dev info entity name Hname)
    as (generic & -> & _).
Qed.

Lemma for_entities_entities
    (config : gmap string string -> list event
              -> list event * option exn * gmap string string)
    (f : gmap string string -> gmap string string)
    (es : list (gmap string string)) :
  (forall entity tr, (config entity tr).1.2 = None ->
                     (config entity tr).2 = f entity) ->
  forall tr, (for_entities config es tr).1.2 = None ->
             (for_entities config es tr).2 = f <$> es.
Proof.
  intros Hconfig. induction es as [| entity es IH]; intros tr; [done |].
  cbn [for_entities]. pose proof (Hconfig entity tr) as Hhere.
  destruct (config entity tr) as [[tr1 [e |]] entity']; cbn [fst snd] in *;
    [done |].
  intros Hnone. by rewrite (IH tr1 Hnone), Hhere.
Qed.

(** The entities of a class as a call that raised nothing leaves
    them. *)
Lemma config_class_entities dev info fails (cls : string)
    (es : list (gmap string string)) tr :
  (config_class dev info fails cls es tr).1.2 = None ->
  (config_class dev info fails cls es tr).2
  = if String.eqb cls "switch" || String.eqb cls "sensor"
    then (delete "icon" ∘ delete "name") <$> es else es.
Proof.
  unfold config_class. destruct (String.eqb cls "switch") eqn:Hsw.
  - apply String.eqb_eq in Hsw as ->. cbn [String.eqb Ascii.eqb Bool.eqb orb].
    pose proof (for_entities_entities (config_switch dev info fails)
                  (delete "icon" ∘ delete "name") es
                  (fun entity tr0 => config_switch_entity dev info fails entity tr0)
                  tr) as Hfor.
    by destruct (for_entities _ es tr) as [[tr1 [e |]] es'];
      cbn [fst snd] in *; [| apply Hfor].
  - cbn [fst snd orb]. destruct (String.eqb cls "sensor"); [| done].
    apply (for_entities_entities (config_sensor dev info fails)
             (delete "icon" ∘ delete "name")).
    intros entity tr0. apply config_sensor_entity.
Qed.

Lemma for_classes_entities dev info fails
    (items : list (string * list (gmap string string))) : forall tr,
  (for_classes dev info fails items tr).1.2 = None ->
  (for_classes dev info fails items tr).2
  = (fun item : string * list (gmap string string) =>
       (item.1,
        if String.eqb item.1 "switch" || String.eqb item.1 "sensor"
        then (delete "icon" ∘ delete "name") <$> item.2 else item.2))
    <$> items.
Proof.
  induction items as [| [cls es] items IH]; intros tr; [done |].
  cbn [for_classes].
  pose proof (config_class_entities dev info fails cls es tr) as Hhere.
  destruct (config_class dev info fails cls es tr) as [[tr1 [e |]] es'];
    cbn [fst snd] in *; [done |].
  intros Hnone. by rewrite (IH tr1 Hnone), Hhere.
Qed.

Lemma for_entities_nameless
    (config : gmap string string -> list event
              -> list event * option exn * gmap string string)
    (es : list (gmap string string)) tr :
  (forall entity tr, entity !! "name" = None ->
                     config entity tr = (tr, Some KeyError, entity)) ->
  Forall (fun entity => entity !! "name" = None) es ->
  for_entities config es tr
  = (tr, if es is [] then None else Some KeyError, es).
Proof.
  intros Hconfig Hes. destruct Hes as [| entity es Hentity _]; [done |].
  cbn [for_entities]. by rewrite (Hconfig entity tr Hentity).
Qed.

Lemma for_classes_nameless dev info fails
    (items : list (string * list (gmap string string))) tr :
  Forall (fun item : string * list (gmap string string) =>
            String.eqb item.1 "switch" || String.eqb item.1 "sensor" = true ->
            Forall (fun entity : gmap string string =>
                      entity !! "name" = None) item.2) items ->
  Exists (fun item : string * list (gmap string string) =>
            (item.1 = "switch" \/ item.1 = "sensor") /\ item.2 ≠ []) items ->
  for_classes dev info fails items tr = (tr, Some KeyError, items).
Proof.
  intros Hall Hex. induction Hex as [[cls es] items [Hcls Hes] | [cls es] items _ IH];
    apply Forall_cons in Hall as [Hhere Hall]; cbn [fst snd] in *.
  - cbn [for_classes]. unfold config_class.
    destruct Hcls as [-> | ->]; cbn [String.eqb Ascii.eqb Bool.eqb fst snd].
    + rewrite for_entities_nameless; [| | by apply Hhere].
      * by destruct es.
      * intros entity tr0 Hname. unfold config_switch. by rewrite Hname.
    + rewrite for_entities_nameless; [| | by apply Hhere].
      * by destruct es.
      * intros entity tr0 Hname. unfold config_sensor. by rewrite Hname.
  - cbn [for_classes].
    assert (Hclass : config_class dev info fails cls es tr = (tr, None, es)
                     \/ config_class dev info fails cls es tr
                        = (tr, Some KeyError, es)).
    { unfold config_class. destruct (String.eqb cls "switch") eqn:Hsw.
      - apply String.eqb_eq in Hsw as ->.
        cbn [String.eqb Ascii.eqb Bool.eqb fst snd].
        rewrite for_entities_nameless; [| | by apply Hhere].
        + destruct es; [by left | by right].
        + intros entity tr0 Hname. unfold config_switch. by rewrite Hname.
      - cbn [fst snd]. destruct (String.eqb cls "sensor") eqn:Hse;
          [| by left].
        rewrite for_entities_nameless; [| | by apply Hhere].
        + destruct es; [by left | by right].
        + intros entity tr0 Hname. unfold config_sensor. by rewrite Hname. }
    destruct Hclass as [-> | ->]; cbn [fst snd]; [| done].
    by rewrite (IH Hall).
Qed.

(** X30. [send_device_config] consumes the entity dicts it is given: a
    call that raises nothing leaves every entity of the classes
    ['switch'] and ['sensor'] without its name and its icon and every
    other entity as it was. Called again on the same dicts, with an
    entity of one of the two classes among them, it raises [KeyError]
    before it publishes anything. *)
Theorem send_device_config_consumes_names dev (fails fails' : nat -> option exn)
    (entities entities' : list (string * list (gmap string string)))
    (trace : list event) :
  send_device_config dev fails entities = (trace, None, entities') ->
  entities'
  = (fun item : string * list (gmap string string) =>
       (item.1,
        if String.eqb item.1 "switch" || String.eqb item.1 "sensor"
        then (delete "icon" ∘ delete "name") <$> item.2 else item.2))
    <$> entities
  /\ (Exists (fun item : string * list (gmap string string) =>
                (item.1 = "switch" \/ item.1 = "sensor") /\ item.2 ≠ [])
        entities ->
      send_device_config dev fails' entities' = ([], Some KeyError, entities')).
Proof.
  unfold send_device_config. intros Hrun.
  match type of Hrun with
  | for_classes dev ?info fails entities [] = _ =>
      pose proof (for_classes_entities dev info fails entities []) as Hleft
  end.
  rewrite Hrun in Hleft. cbn [fst snd] in Hleft. specialize (Hleft eq_refl).
  split; [exact Hleft |]. intros Hex. rewrite Hleft.
  apply for_classes_nameless.
  - apply Forall_fmap, Forall_forall. intros [cls es] _. cbn [fst snd compose].
    intros ->. apply Forall_fmap, Forall_forall. intros entity _.
    cbn [compose]. by rewrite lookup_delete_ne, lookup_delete_eq.
  - apply Exists_fmap. eapply Exists_impl; [exact Hex |].
    intros [cls es] [Hcls Hes]. cbn [fst snd compose] in *.
    split; [done |]. destruct Hcls as [-> | ->]; by destruct es.
Qed.

End DiscoveryFacts.

(** An entity with an icon and a unique id of its own. *)
Lemma generic_vals_precedence_witness :
  exists generic : gmap string Discovery.pv,
    Discovery.get_generic_vals Sample2.plug_device Sample2.plug_info
      Sample2.lamp
    = Ok (generic, delete "icon" (delete "name" Sample2.lamp))
    /\ generic !! "name" = Some (Discovery.PStr "lamp_plug")
    /\ generic !! "unique_id" = Some (Discovery.PStr "lamp0")
    /\ generic !! "icon" = Some (Discovery.PStr "mdi:bulb").
Proof.
  destruct (generic_vals_precedence Sample2.plug_device Sample2.plug_info
              Sample2.lamp "lamp" eq_refl)
    as (generic & Hrun & Hname & Hkeys & _ & _ & Hicon).
  exists generic. split; [exact Hrun |]. split; [exact Hname |].
  split; [by apply Hkeys | exact Hicon].
Defined.

(** The device with a sensor and a switch: the second call on the same
    entity dicts raises [KeyError]. *)
Lemma send_device_config_consumes_names_witness :
  Discovery.send_device_config Sample2.plug_device Sample2.no_failure
    (Discovery.send_device_config Sample2.plug_device Sample2.no_failure
       Sample2.plug_entities).2
  = ([], Some KeyError,
     (Discovery.send_device_config Sample2.plug_device Sample2.no_failure
        Sample2.plug_entities).2).
Proof.
  refine (proj2 (send_device_config_consumes_names Sample2.plug_device
                   Sample2.no_failure Sample2.no_failure Sample2.plug_entities
                   (Discovery.send_device_config Sample2.plug_device
                      Sample2.no_failure Sample2.plug_entities).2
                   (Discovery.send_device_config Sample2.plug_device
                      Sample2.no_failure Sample2.plug_entities).1.1
                   _) _).
  - vm_compute. reflexivity.
  - apply List.Exists_cons_hd. split; [by right | done].
Defined.
